(** * Screenshot AI Studio: the application shell and its history of screenshots

    A shallow embedding of the TypeScript shell of the repository:
    - [App] follows [src/App.tsx] (the revision with the Rust backend and the
      duplicate check in the event listener): the [Screenshot] record, the
      listener of [screenshot-processed] events and [handleFilesDropped];
    - [ServerConfigPanel] follows [src/components/ServerConfig.tsx]:
      [startServer] and the state of the component;
    - [DropZone] follows [src/components/DropZone.tsx];
    - [Pipeline] is the backend pipeline, which is not among the sources and
      is written after the specification.

    React state is modelled by explicit state passing.  Every call of a
    state setter with a functional update ([setScreenshots(prev => ...)]) is
    one atomic step on the list of screenshots; an asynchronous handler is
    the sequence of effects it performs, in program order, with the values
    the environment supplies (clock readings, results of awaited promises)
    given as inputs. *)

From Stdlib Require Import List String Ascii Bool Arith NArith ZArith Lia.
From Stdlib Require Import DecimalString DecimalPos DecimalZ.
Import ListNotations.
Local Open Scope string_scope.

(** ** The JavaScript primitives the shell relies on *)
Module Js.

(** [s.startsWith(p)] *)
Definition startsWith (s p : string) : bool := String.prefix p s.

(** Truthiness of a value of type [string | undefined]: [undefined] and the
    empty string are falsy. *)
Definition truthy (v : option string) : bool :=
  match v with
  | None => false
  | Some s => negb (s =? "")
  end.

(** [v || d] for [v : string | undefined] and a string [d]. *)
Definition or_else (v : option string) (d : string) : string :=
  match v with
  | Some s => if s =? "" then d else s
  | None => d
  end.

(** [String(n)] for an integral number below 1e21 in magnitude (clock
    readings in milliseconds and array indices are): decimal digits, with a
    leading minus sign for a negative number. *)
Definition number_to_string (n : Z) : string :=
  NilZero.string_of_int (Z.to_int n).

(** [s.includes('-')] *)
Fixpoint has_dash (s : string) : bool :=
  match s with
  | EmptyString => false
  | String c rest => Ascii.eqb c "-" || has_dash rest
  end.

(** The line feed of a template literal. *)
Definition nl : string := String (ascii_of_nat 10) EmptyString.

End Js.

(** ** [src/App.tsx] *)
Module App.

(** [status: 'processing' | 'completed' | 'error'] *)
Inductive Status : Type := processing | completed | error.

(** [interface Screenshot] *)
Record Screenshot : Type := mkScreenshot {
  id : string;
  name : string;
  size : N;
  type : string;
  timestamp : string;
  status : Status;
  analysis : option string;
  source : option string
}.

(** [interface ProcessingResponse] *)
Record ProcessingResponse : Type := mkResponse {
  success : bool;
  summary : option string;
  analysis_id : option string;
  r_timestamp : string;
  follow_up_available : option bool;
  r_source : option string;
  r_error : option string
}.

(** The fields of a [File] that the shell reads. *)
Record File : Type := mkFile {
  f_name : string;
  f_size : N;
  f_type : string
}.

(** The payload of a [screenshot-processed] event.  It is cast to [any]; the
    fields are those the listener reads, [p_status] and [p_source] being
    [None] when the field is missing. *)
Record Payload : Type := mkPayload {
  p_id : string;
  p_name : string;
  p_size : N;
  p_type : string;
  p_timestamp : string;
  p_status : option Status;
  p_analysis : option string;
  p_source : option string
}.

(** [screenshotData.status || 'completed']: every status literal is a
    non-empty string, hence truthy. *)
Definition status_or (v : option Status) (d : Status) : Status :=
  match v with
  | Some s => s
  | None => d
  end.

(** The [newScreenshot] object literal of the listener. *)
Definition newScreenshot (screenshotData : Payload) : Screenshot :=
  {| id := p_id screenshotData;
     name := p_name screenshotData;
     size := p_size screenshotData;
     type := p_type screenshotData;
     timestamp := p_timestamp screenshotData;
     status := status_or (p_status screenshotData) completed;
     analysis := p_analysis screenshotData;
     source := Some (Js.or_else (p_source screenshotData) "desktop_auto") |}.

(** [prev.some(existing => existing.id === newScreenshot.id)] *)
Definition isDuplicate (prev : list Screenshot) (s : Screenshot) : bool :=
  existsb (fun existing => id existing =? id s) prev.

(** The functional update the listener passes to [setScreenshots]. *)
Definition add_unless_duplicate (s : Screenshot) (prev : list Screenshot)
  : list Screenshot :=
  if isDuplicate prev s then prev else s :: prev.

(** The listener of [screenshot-processed]: the new list of screenshots. *)
Definition on_screenshot_processed (screenshotData : Payload)
    (prev : list Screenshot) : list Screenshot :=
  add_unless_duplicate (newScreenshot screenshotData) prev.

(** [loadScreenshots]: the list the backend returns replaces the state. *)
Definition loadScreenshots (existing : list Screenshot) : list Screenshot :=
  map (fun item =>
         {| id := id item; name := name item; size := size item;
            type := type item; timestamp := timestamp item;
            status := status item; analysis := analysis item;
            source := source item |}) existing.

(** *** [handleFilesDropped] *)

(** The [metadata] argument of [process_screenshot_direct]. *)
Record Metadata : Type := mkMetadata {
  m_source : string;
  m_app : string;
  m_filename : string
}.

(** The functional updates passed to [setScreenshots]. *)
Inductive Setter : Type :=
| AddToState (screenshot : Screenshot)
    (** [prev => [screenshot, ...prev]] *)
| UpdateWithResults (sid : string) (result : ProcessingResponse)
    (** [prev => prev.map(s => s.id === screenshot.id ? {...} : s)] of the
        [try] block *)
| UpdateFailed (sid : string) (err : string)
    (** the same of the [catch] block; [err] is the text of the thrown value *)
| AddUnlessDuplicate (screenshot : Screenshot)
    (** the update of the event listener *).

(** What the handler does to the outside, in program order.  A console call
    is recorded with its first argument. *)
Inductive Effect : Type :=
| ConsoleLog (msg : string)
| ConsoleError (msg : string)
| SetScreenshots (update : Setter)
| SetIsProcessing (b : bool)
| SetProcessingCount (delta : Z)
| FileToBase64 (file : File)
| Invoke (command : string) (imageBase64 : string) (metadata : Metadata).

(** How the [try] block of one file ends: [fileToBase64] rejects, [invoke]
    rejects, or [invoke] resolves with a response. *)
Inductive Outcome : Type :=
| ReadRejected (err : string)
| InvokeRejected (base64 : string) (err : string)
| Responded (base64 : string) (result : ProcessingResponse).

(** What the environment supplies while one accepted file is handled: the
    reading of [Date.now()], the text of [new Date().toISOString()] and the
    outcome of the awaited calls. *)
Record Tick : Type := mkTick {
  now : Z;
  iso : string;
  outcome : Outcome
}.

(** [`${Date.now()}-${i}`] *)
Definition make_id (now : Z) (i : nat) : string :=
  Js.number_to_string now ++ "-" ++ Js.number_to_string (Z.of_nat i).

(** The [screenshot] object literal of the loop body. *)
Definition screenshot_of (now : Z) (iso : string) (i : nat) (file : File)
  : Screenshot :=
  {| id := make_id now i;
     name := f_name file;
     size := f_size file;
     type := f_type file;
     timestamp := iso;
     status := processing;
     analysis := None;
     source := Some "frontend_upload" |}.

(** [{...s, status: result.success ? 'completed' : 'error',
          analysis: result.success ? result.summary : result.error}] *)
Definition with_results (result : ProcessingResponse) (s : Screenshot)
  : Screenshot :=
  {| id := id s; name := name s; size := size s; type := type s;
     timestamp := timestamp s;
     status := if success result then completed else error;
     analysis := if success result then summary result else r_error result;
     source := source s |}.

(** [{...s, status: 'error', analysis: `Processing failed: ${error}`}] *)
Definition with_failure (err : string) (s : Screenshot) : Screenshot :=
  {| id := id s; name := name s; size := size s; type := type s;
     timestamp := timestamp s;
     status := error;
     analysis := Some ("Processing failed: " ++ err);
     source := source s |}.

(** [prev.map(s => s.id === sid ? f(s) : s)] *)
Definition update_by_id (sid : string) (f : Screenshot -> Screenshot)
    (prev : list Screenshot) : list Screenshot :=
  map (fun s => if id s =? sid then f s else s) prev.

(** One call of [setScreenshots] with a functional update. *)
Definition apply_setter (u : Setter) (prev : list Screenshot)
  : list Screenshot :=
  match u with
  | AddToState screenshot => screenshot :: prev
  | UpdateWithResults sid result => update_by_id sid (with_results result) prev
  | UpdateFailed sid err => update_by_id sid (with_failure err) prev
  | AddUnlessDuplicate screenshot => add_unless_duplicate screenshot prev
  end.

Definition metadata_of (file : File) : Metadata :=
  {| m_source := "frontend_upload";
     m_app := "Screenshot AI Studio";
     m_filename := f_name file |}.

(** The [try] and [catch] blocks for one file. *)
Definition try_block (screenshot : Screenshot) (file : File) (o : Outcome)
  : list Effect :=
  match o with
  | ReadRejected err =>
      [ FileToBase64 file;
        ConsoleError "Processing failed:";
        SetScreenshots (UpdateFailed (id screenshot) err) ]
  | InvokeRejected base64 err =>
      [ FileToBase64 file;
        Invoke "process_screenshot_direct" base64 (metadata_of file);
        ConsoleError "Processing failed:";
        SetScreenshots (UpdateFailed (id screenshot) err) ]
  | Responded base64 result =>
      [ FileToBase64 file;
        Invoke "process_screenshot_direct" base64 (metadata_of file);
        SetScreenshots (UpdateWithResults (id screenshot) result);
        if success result
        then ConsoleLog "✅ Screenshot processed successfully:"
        else ConsoleError "❌ Processing failed:" ]
  end.

(** The [finally] block; [processingCount] is the value the callback closed
    over. *)
Definition finally_block (processingCount : Z) : list Effect :=
  SetProcessingCount (-1)
  :: (if (processingCount <=? 1)%Z then [SetIsProcessing false] else []).

(** The body of the [for] loop at index [i]. *)
Definition iteration (processingCount : Z) (i : nat) (file : File) (t : Tick)
  : list Effect :=
  if negb (Js.startsWith (f_type file) "image/") then []
  else
    let screenshot := screenshot_of (now t) (iso t) i file in
    [ SetScreenshots (AddToState screenshot);
      SetIsProcessing true;
      SetProcessingCount 1 ]
    ++ try_block screenshot file (outcome t)
    ++ finally_block processingCount.

(** The [for] loop from index [i] on; [env i] is what the environment supplies
    at index [i]. *)
Fixpoint loop (processingCount : Z) (env : nat -> Tick) (i : nat)
    (files : list File) : list Effect :=
  match files with
  | [] => []
  | file :: rest =>
      iteration processingCount i file (env i)
      ++ loop processingCount env (S i) rest
  end.

Definition handleFilesDropped (processingCount : Z) (env : nat -> Tick)
    (files : list File) : list Effect :=
  ConsoleLog "Files dropped:" :: loop processingCount env 0 files.

(** *** The list of screenshots along a trace of effects *)

Definition step (e : Effect) (prev : list Screenshot) : list Screenshot :=
  match e with
  | SetScreenshots u => apply_setter u prev
  | _ => prev
  end.

(** The state after the whole trace. *)
Definition screenshots_after (trace : list Effect) (prev : list Screenshot)
  : list Screenshot :=
  fold_left (fun h e => step e h) trace prev.

(** The state after each effect of the trace, in order. *)
Fixpoint histories (trace : list Effect) (prev : list Screenshot)
  : list (list Screenshot) :=
  match trace with
  | [] => []
  | e :: rest => let h := step e prev in h :: histories rest h
  end.

(** Slot [k] of the list: the item that was the [k]-th to enter it (the list
    is read most recent first, so slots are counted from its end). *)
Definition slot (h : list Screenshot) (k : nat) : option Screenshot :=
  nth_error (rev h) k.

(** The position, from the front, of slot [k]. *)
Definition position (h : list Screenshot) (k : nat) : nat :=
  List.length h - 1 - k.

(** The statuses slot [k] goes through along a trace. *)
Definition status_history (k : nat) (trace : list Effect)
    (prev : list Screenshot) : list Status :=
  flat_map (fun h => match slot h k with
                     | Some s => [status s]
                     | None => []
                     end)
           (histories trace prev).

Definition Status_eqb (a b : Status) : bool :=
  match a, b with
  | processing, processing | completed, completed | error, error => true
  | _, _ => false
  end.

(** The number of changes of status in a history of statuses. *)
Fixpoint transitions (l : list Status) : nat :=
  match l with
  | a :: (b :: _) as rest =>
      (if Status_eqb a b then 0 else 1) + transitions rest
  | _ => 0
  end.

(** Two handlers that run concurrently: their effects interleave, each in its
    own program order. *)
Inductive Interleaving {A : Type} : list A -> list A -> list A -> Prop :=
| interleave_nil : Interleaving [] [] []
| interleave_left x l r m :
    Interleaving l r m -> Interleaving (x :: l) r (x :: m)
| interleave_right x l r m :
    Interleaving l r m -> Interleaving l (x :: r) (x :: m).

(** The fields of an item that no update touches. *)
Definition immutable (s : Screenshot)
  : string * string * N * string * string * option string :=
  (id s, name s, size s, type s, timestamp s, source s).

(** An item [s'] is a later state of the item [s]: the same immutable
    fields, and if [s'] is still being processed nothing has happened to it. *)
Definition evolves (s s' : Screenshot) : Prop :=
  immutable s' = immutable s /\ (status s' = processing -> s' = s).

(** The list [h'] is a later state of the list [h]: the items of [h], each
    possibly evolved, at the end and in the same order, behind newer items. *)
Definition extends (h h' : list Screenshot) : Prop :=
  exists news upd, h' = (news ++ upd)%list /\ Forall2 evolves h upd.

(** The effects by which the shell reports an error about a file: an error
    on the console, or an item finalized in the error state. *)
Definition is_error_report (e : Effect) : bool :=
  match e with
  | ConsoleError _ => true
  | SetScreenshots (UpdateFailed _ _) => true
  | SetScreenshots (UpdateWithResults _ result) => negb (success result)
  | _ => false
  end.

Definition reports_error (trace : list Effect) : bool :=
  existsb is_error_report trace.

(** The reading of the data model of the specification on the shell's item,
    whose only text field is [analysis]: the field is set only on a completed
    item. *)
Definition analysis_only_when_completed (h : list Screenshot) : Prop :=
  forall s, In s h -> analysis s <> None -> status s = completed.

(** The status and the text an item is finalized with. *)
Definition finalized_as (o : Outcome) : Status * option string :=
  match o with
  | Responded _ result =>
      if success result then (completed, summary result)
      else (error, r_error result)
  | ReadRejected err | InvokeRejected _ err =>
      (error, Some ("Processing failed: " ++ err))
  end.

(** The update of the [try] or of the [catch] block, by outcome. *)
Definition finalize (o : Outcome) (s : Screenshot) : Screenshot :=
  match o with
  | Responded _ result => with_results result s
  | ReadRejected err | InvokeRejected _ err => with_failure err s
  end.

(** The items one call of the handler creates, oldest first, each with the
    outcome of its [try] block. *)
Fixpoint accepted (env : nat -> Tick) (i : nat) (files : list File)
  : list (Screenshot * Outcome) :=
  match files with
  | [] => []
  | file :: rest =>
      if Js.startsWith (f_type file) "image/"
      then (screenshot_of (now (env i)) (iso (env i)) i file, outcome (env i))
           :: accepted env (S i) rest
      else accepted env (S i) rest
  end.

(** The finalizations of those items, applied in order to a list. *)
Definition finalize_all (items : list (Screenshot * Outcome))
    (h : list Screenshot) : list Screenshot :=
  fold_left (fun h so => update_by_id (id (fst so)) (finalize (snd so)) h)
            items h.

End App.

(** ** [src/components/DropZone.tsx] *)
Module DropZone.

(** [handleDrop] and the [onchange] of [handleClick]: the files, when there are
    any, go to [onFilesDropped] unfiltered. *)
Definition handleDrop {A : Type} (onFilesDropped : list App.File -> A)
    (files : option (list App.File)) : option A :=
  match files with
  | Some fs => Some (onFilesDropped fs)
  | None => None
  end.

(** [input.accept] of the file dialog. *)
Definition accept : string := "image/*".

(** The note under the drop zone. *)
Definition max_size_note : string := "Max 10MB per file".

End DropZone.

(** ** [src/components/ServerConfig.tsx] *)
Module ServerConfigPanel.

(** [interface ServerConfig] *)
Record ServerConfig : Type := mkServerConfig {
  anthropic_api_key : option string;
  telegram_bot_token : option string;
  telegram_chat_id : option string;
  enable_desktop_detection : bool;
  server_port : N
}.

(** [interface ServerInfo] *)
Record ServerInfo : Type := mkServerInfo {
  status : string;
  local_ip : string;
  port : N;
  endpoint_url : string;
  desktop_detection : bool;
  telegram_configured : bool
}.

(** The state of the component (its [useState] cells). *)
Record State : Type := mkState {
  config : ServerConfig;
  serverInfo : option ServerInfo;
  isLoading : bool;
  showPasswords : bool;
  showSetup : bool;
  recentProcessing : list App.ProcessingResponse
}.

(** What [startServer] does to the outside.  [InvokeStartServer] is the call
    of the backend command [start_server], the only place a server session is
    asked for. *)
Inductive Effect : Type :=
| Alert (msg : string)
| ConsoleError (msg : string)
| InvokeStartServer (config : ServerConfig).

Definition setIsLoading (b : bool) (st : State) : State :=
  {| config := config st; serverInfo := serverInfo st; isLoading := b;
     showPasswords := showPasswords st; showSetup := showSetup st;
     recentProcessing := recentProcessing st |}.

Definition setServerInfo (i : option ServerInfo) (st : State) : State :=
  {| config := config st; serverInfo := i; isLoading := isLoading st;
     showPasswords := showPasswords st; showSetup := showSetup st;
     recentProcessing := recentProcessing st |}.

Definition setShowSetup (b : bool) (st : State) : State :=
  {| config := config st; serverInfo := serverInfo st;
     isLoading := isLoading st; showPasswords := showPasswords st;
     showSetup := b; recentProcessing := recentProcessing st |}.

(** The text of the alert after a successful start. *)
Definition started_message (info : ServerInfo) : string :=
  "âœ… Server started successfully!" ++ Js.nl ++ Js.nl
  ++ "Endpoint: " ++ endpoint_url info ++ Js.nl ++ Js.nl
  ++ "Setup your iPhone Shortcut to POST screenshots to this URL.".

(** [startServer]; [started] is how the awaited [invoke('start_server')] ends
    if it is reached: with the server's info, or rejected with an error whose
    text is given. *)
Definition startServer (started : ServerInfo + string) (st : State)
  : State * list Effect :=
  if negb (Js.truthy (anthropic_api_key (config st))) then
    (st, [Alert "Anthropic API key is required!"])
  else
    let st := setIsLoading true st in
    match started with
    | inl info =>
        (setIsLoading false (setShowSetup false (setServerInfo (Some info) st)),
         [InvokeStartServer (config st); Alert (started_message info)])
    | inr err =>
        (setIsLoading false st,
         [InvokeStartServer (config st);
          ConsoleError "Failed to start server:";
          Alert ("Failed to start server: " ++ err)])
    end.

(** [disabled={isLoading || !config.anthropic_api_key}] of the start button
    of the setup dialog. *)
Definition start_disabled (st : State) : bool :=
  isLoading st || negb (Js.truthy (anthropic_api_key (config st))).

(** A click on the start button of the setup dialog. *)
Definition click_start (started : ServerInfo + string) (st : State)
  : State * list Effect :=
  if start_disabled st then (st, []) else startServer started st.

(** [isServerRunning] *)
Definition isServerRunning (st : State) : bool :=
  match serverInfo st with
  | Some info => status info =? "running"
  | None => false
  end.

End ServerConfigPanel.

(** ** The processing pipeline of the backend

    The backend (the Processing Pipeline, the AI Analysis Client and the
    Notification Dispatcher) is not among the sources: the shell only calls
    it.  Everything in this module is written after the specification. *)
Module Pipeline.

(** Modelled from the spec: the [source] enumeration of ProcessedItem, which
    is declared in the backend. *)
Inductive Source : Type := IOS_PUSH | DESKTOP_AUTO | MANUAL_UPLOAD.

(** Modelled from the spec: the [status] enumeration of ProcessedItem, which
    is declared in the backend. *)
Inductive ItemStatus : Type := PROCESSING | COMPLETED | ERROR.

(** Modelled from the spec: the typed failures of the AI Analysis Client,
    which is part of the backend. *)
Inductive FailureKind : Type :=
| AUTH_ERROR | RATE_LIMITED | PAYLOAD_TOO_LARGE | PROVIDER_UNAVAILABLE | TIMEOUT.

(** Modelled from the spec: the ProcessedItem of the data model, which is
    declared in the backend. *)
Record ProcessedItem : Type := mkItem {
  id : nat;
  source : Source;
  name : string;
  byteSize : N;
  mimeType : string;
  timestamp : string;
  status : ItemStatus;
  analysisSummary : option string;
  errorDetail : option string;
  imageBytes : list Byte.byte
}.

(** Modelled from the spec: what the Image Codec of the backend extracts from
    a payload it accepts (bytes, byte size, mime type). *)
Record Decoded : Type := mkDecoded {
  d_bytes : list Byte.byte;
  d_byteSize : N;
  d_mimeType : string
}.

(** Modelled from the spec: the log of the backend; a failed delivery of a
    notification is logged. *)
Inductive LogEntry : Type :=
| NotificationDeliveryFailed (item : nat).

(** Modelled from the spec: the state the pipeline of the backend owns: the
    history, most recent first, the next free id, the log and the events
    published to the shell. *)
Record State : Type := mkState {
  history : list ProcessedItem;
  next_id : nat;
  log : list LogEntry;
  events : list ProcessedItem
}.

(** Modelled from the spec: the result of [submit] of the backend: the
    finalized item, or the decode failure of step 1. *)
Inductive SubmitResult : Type :=
| DecodeFailed (detail : string)
| Finalized (item : ProcessedItem).

(** Modelled from the spec: the failure kind as the error detail of an item
    of the backend. *)
Definition failure_name (k : FailureKind) : string :=
  match k with
  | AUTH_ERROR => "AUTH_ERROR"
  | RATE_LIMITED => "RATE_LIMITED"
  | PAYLOAD_TOO_LARGE => "PAYLOAD_TOO_LARGE"
  | PROVIDER_UNAVAILABLE => "PROVIDER_UNAVAILABLE"
  | TIMEOUT => "TIMEOUT"
  end.

(** Modelled from the spec: the failures the AI Analysis Client of the
    backend retries (TIMEOUT and PROVIDER_UNAVAILABLE). *)
Definition retryable (k : FailureKind) : bool :=
  match k with
  | TIMEOUT | PROVIDER_UNAVAILABLE => true
  | _ => false
  end.

(** Modelled from the spec: step 5 of [submit] of the backend: COMPLETED with
    the summary if the analysis succeeded, ERROR with the failure kind
    otherwise. *)
Definition with_outcome (r : string + FailureKind) (item : ProcessedItem)
  : ProcessedItem :=
  {| id := id item; source := source item; name := name item;
     byteSize := byteSize item; mimeType := mimeType item;
     timestamp := timestamp item;
     status := match r with inl _ => COMPLETED | inr _ => ERROR end;
     analysisSummary := match r with inl s => Some s | inr _ => None end;
     errorDetail := match r with
                    | inl _ => None
                    | inr k => Some (failure_name k)
                    end;
     imageBytes := imageBytes item |}.

(** Modelled from the spec: the history of the backend is updated in place
    when an item is finalized. *)
Definition update_in_place (final : ProcessedItem)
    (h : list ProcessedItem) : list ProcessedItem :=
  map (fun it => if Nat.eqb (id it) (id final) then final else it) h.

(** Modelled from the spec: step 2 of [submit] of the Processing Pipeline,
    which is not among the sources: the item as it is appended, with its id,
    timestamp and source assigned, in PROCESSING state. *)
Definition fresh_item (st : State) (d : Decoded) (src : Source)
    (filename ts : string) : ProcessedItem :=
  {| id := next_id st; source := src; name := filename;
     byteSize := d_byteSize d; mimeType := d_mimeType d;
     timestamp := ts; status := PROCESSING;
     analysisSummary := None; errorDetail := None;
     imageBytes := d_bytes d |}.

Section Providers.

(** The codec, the remote analysis service (by number of the attempt) and the
    notification provider ([true] when the message was delivered). *)
Variable decode : list Byte.byte -> option Decoded.
Variable provider : nat -> Decoded -> Source -> string -> string + FailureKind.
Variable deliver : ProcessedItem -> string + FailureKind -> bool.

(** Modelled from the spec: the AI Analysis Client of the backend, which is
    not among the sources.  "On TIMEOUT/PROVIDER_UNAVAILABLE, the call is
    retried once with backoff before surfacing failure to the Pipeline;
    AUTH_ERROR and PAYLOAD_TOO_LARGE are not retried." *)
Definition analyse (d : Decoded) (src : Source) (filename : string)
  : string + FailureKind :=
  match provider 0 d src filename with
  | inl s => inl s
  | inr k => if retryable k then provider 1 d src filename else inr k
  end.

(** Modelled from the spec: [submit] of the Processing Pipeline of the
    backend, which is not among the sources.  The steps are those of the
    component design: (1) validate and decode, on failure finalize with a
    DECODE_ERROR detail and skip the rest; (2) assign id, timestamp and
    source and append the item in PROCESSING state; (3) call the analysis
    client; (4) call the notification dispatcher with whatever result is
    available, best-effort, a failed delivery being logged; (5) finalize the
    item, COMPLETED if step 3 succeeded and ERROR otherwise, in place, and
    publish it to the shell. *)
Definition submit (st : State) (bytes : list Byte.byte) (src : Source)
    (filename : string) (ts : string) : State * SubmitResult :=
  match decode bytes with
  | None => (st, DecodeFailed "DECODE_ERROR")
  | Some d =>
      let item := fresh_item st d src filename ts in
      let appended := item :: history st in
      let r := analyse d src filename in
      let delivered := deliver item r in
      let final := with_outcome r item in
      ({| history := update_in_place final appended;
          next_id := S (next_id st);
          log := if delivered then log st
                 else NotificationDeliveryFailed (id item) :: log st;
          events := final :: events st |},
       Finalized final)
  end.

End Providers.

(** Modelled from the spec: the error taxonomy of the backend, which is not
    among the sources. *)
Inductive ErrorKind : Type :=
| ValidationError
| DecodeError
| ProviderAuthError
| ProviderRateLimited
| ProviderUnavailable
| ProviderTimeout
| PortInUse
| AlreadyRunning
| NotRunning.

(** Modelled from the spec: an image submitted to the HTTP Ingestion Endpoint
    of the backend, decoded from base64: its mime type and its bytes. *)
Record Submission : Type := mkSubmission {
  sub_mime : string;
  sub_payload : list Byte.byte
}.

(** Modelled from the spec: the size of a payload, in bytes. *)
Definition payload_size (s : Submission) : N :=
  N.of_nat (List.length (sub_payload s)).

(** Modelled from the spec: the validation of the HTTP Ingestion Endpoint of
    the backend, which is not among the sources: "reject non-image mime
    types, reject payloads exceeding the configured size limit ... with a
    4xx-equivalent typed error".  [limit] is the configured size limit;
    [None] means that the submission is valid. *)
Definition validate (limit : N) (s : Submission) : option ErrorKind :=
  if negb (String.prefix "image/" (sub_mime s)) then Some ValidationError
  else if (limit <? payload_size s)%N then Some ValidationError
  else None.

Section Ingestion.

Variable decode : list Byte.byte -> option Decoded.
Variable provider : nat -> Decoded -> Source -> string -> string + FailureKind.
Variable deliver : ProcessedItem -> string + FailureKind -> bool.

(** Modelled from the spec: submit-image of the HTTP Ingestion Endpoint of the
    backend, which is not among the sources: it "validates, decodes, and
    forwards to the Processing Pipeline"; a submission that is not valid is
    answered with the typed error and the pipeline is not run. *)
Definition submit_image (limit : N) (st : State) (s : Submission)
    (src : Source) (filename ts : string)
  : State * (ErrorKind + SubmitResult) :=
  match validate limit s with
  | Some e => (st, inl e)
  | None =>
      let (st', r) :=
        submit decode provider deliver st (sub_payload s) src filename ts in
      (st', inr r)
  end.

End Ingestion.

End Pipeline.

(** ** Concrete inputs used in examples *)
Module Examples.
Import App.

Definition ok_response : ProcessingResponse :=
  {| success := true; summary := Some "A settings dialog.";
     analysis_id := Some "a1"; r_timestamp := "2025-08-27T11:42:09.120Z";
     follow_up_available := Some true; r_source := Some "frontend_upload";
     r_error := None |}.

Definition failed_response : ProcessingResponse :=
  {| success := false; summary := None; analysis_id := None;
     r_timestamp := "2025-08-27T11:42:09.480Z";
     follow_up_available := None; r_source := None;
     r_error := Some "Claude API error: 529" |}.

Definition first_png : File :=
  {| f_name := "first.png"; f_size := 2048; f_type := "image/png" |}.

Definition second_png : File :=
  {| f_name := "second.png"; f_size := 4096; f_type := "image/png" |}.

Definition notes_txt : File :=
  {| f_name := "notes.txt"; f_size := 12; f_type := "text/plain" |}.

(** Two drops whose handlers read the same value of [Date.now()]. *)
Definition same_instant : Z := 1756300000000.

Definition env_first (_ : nat) : Tick :=
  {| now := same_instant; iso := "2025-08-27T11:42:09.000Z";
     outcome := Responded "Zmlyc3Q=" ok_response |}.

Definition env_second (_ : nat) : Tick :=
  {| now := same_instant; iso := "2025-08-27T11:42:09.000Z";
     outcome := Responded "c2Vjb25k" failed_response |}.

(** The first handler runs up to its first [await], the second drop is
    handled up to its first [await], then the first handler resumes and
    finishes, then the second. *)
Definition collision_trace : list Effect :=
  let run1 := handleFilesDropped 0 env_first [first_png] in
  let run2 := handleFilesDropped 0 env_second [second_png] in
  firstn 5 run1 ++ firstn 5 run2 ++ skipn 5 run1 ++ skipn 5 run2.

Definition event_without_defaults : Payload :=
  {| p_id := "7f3c"; p_name := "Screenshot 2025-08-27.png"; p_size := 5120;
     p_type := "image/png"; p_timestamp := "2025-08-27T11:47:54.000Z";
     p_status := None; p_analysis := Some "A terminal window.";
     p_source := None |}.

Definition no_key_state : ServerConfigPanel.State :=
  {| ServerConfigPanel.config :=
       {| ServerConfigPanel.anthropic_api_key := Some "";
          ServerConfigPanel.telegram_bot_token := Some "";
          ServerConfigPanel.telegram_chat_id := Some "";
          ServerConfigPanel.enable_desktop_detection := false;
          ServerConfigPanel.server_port := 5001 |};
     ServerConfigPanel.serverInfo := None;
     ServerConfigPanel.isLoading := false;
     ServerConfigPanel.showPasswords := false;
     ServerConfigPanel.showSetup := true;
     ServerConfigPanel.recentProcessing := [] |}.

Definition some_info : ServerConfigPanel.ServerInfo :=
  {| ServerConfigPanel.status := "running";
     ServerConfigPanel.local_ip := "192.168.1.20";
     ServerConfigPanel.port := 5001;
     ServerConfigPanel.endpoint_url := "http://192.168.1.20:5001/screenshot";
     ServerConfigPanel.desktop_detection := false;
     ServerConfigPanel.telegram_configured := false |}.

(** Stubs of the providers of the pipeline: the codec accepts everything as a
    PNG, the analysis service times out once and then answers, the
    notification provider never delivers. *)
Definition stub_decode (bytes : list Byte.byte) : option Pipeline.Decoded :=
  Some {| Pipeline.d_bytes := bytes;
          Pipeline.d_byteSize := N.of_nat (List.length bytes);
          Pipeline.d_mimeType := "image/png" |}.

Definition stub_provider (attempt : nat) (_ : Pipeline.Decoded)
    (_ : Pipeline.Source) (_ : string) : string + Pipeline.FailureKind :=
  match attempt with
  | O => inr Pipeline.TIMEOUT
  | _ => inl "A red pixel."
  end.

Definition stub_deliver_fails (_ : Pipeline.ProcessedItem)
    (_ : string + Pipeline.FailureKind) : bool := false.

Definition empty_pipeline : Pipeline.State :=
  {| Pipeline.history := []; Pipeline.next_id := 0;
     Pipeline.log := []; Pipeline.events := [] |}.

End Examples.

(** ** [src/App.tsx]: what the gallery shows, and the counters of the handler *)
Module AppView.
Import App.

(** [getDisplayName]; a text is taken one character per code unit. *)
Definition getDisplayName (name : string) : string :=
  if (30 <? String.length name)%nat
  then String.substring 0 30 name ++ "..."
  else name.

(** [s.split(sep)] for a separator of one character. *)
Fixpoint split (sep : ascii) (s : string) : list string :=
  match s with
  | EmptyString => [EmptyString]
  | String c rest =>
      if Ascii.eqb c sep then EmptyString :: split sep rest
      else match split sep rest with
           | piece :: pieces => String c piece :: pieces
           | [] => [String c EmptyString]
           end
  end.

(** The [onload] of [fileToBase64]: [result.split(',')[1]], which is what the
    promise resolves with; [None] is [undefined]. *)
Definition fileToBase64_onload (result : string) : option string :=
  nth_error (split "," result) 1.

(** [screenshots.length > 0 && ... screenshots.slice(0, 12).map(...)]: the
    cards of the first grid, [None] when the grid is not rendered. *)
Definition recent_grid (screenshots : list Screenshot)
  : option (list Screenshot) :=
  if (0 <? List.length screenshots)%nat then Some (firstn 12 screenshots) else None.

(** [screenshots.length > 12 && ... screenshots.slice(12).map(...)] *)
Definition more_grid (screenshots : list Screenshot)
  : option (list Screenshot) :=
  if (12 <? List.length screenshots)%nat then Some (skipn 12 screenshots) else None.

(** [screenshots.length === 0 && !isProcessing]: the empty state is shown. *)
Definition empty_state (screenshots : list Screenshot) (isProcessing : bool)
  : bool :=
  (List.length screenshots =? 0)%nat && negb isProcessing.

(** The cards on the page, from top to bottom. *)
Definition cards (screenshots : list Screenshot) : list Screenshot :=
  (match recent_grid screenshots with Some l => l | None => [] end
   ++ match more_grid screenshots with Some l => l | None => [] end)%list.

(** The value of [processingCount] along a trace: [setProcessingCount(prev =>
    prev + delta)]. *)
Definition processingCount_after (trace : list Effect) (count : Z) : Z :=
  fold_left (fun c e => match e with
                        | SetProcessingCount delta => (c + delta)%Z
                        | _ => c
                        end) trace count.

(** The value of [isProcessing] along a trace. *)
Definition isProcessing_after (trace : list Effect) (b : bool) : bool :=
  fold_left (fun b e => match e with
                        | SetIsProcessing v => v
                        | _ => b
                        end) trace b.

(** The calls of the backend in a trace, in order. *)
Definition invocations (trace : list Effect)
  : list (string * string * Metadata) :=
  flat_map (fun e => match e with
                     | Invoke command base64 metadata =>
                         [(command, base64, metadata)]
                     | _ => []
                     end) trace.

(** The files read in a trace, in order. *)
Definition reads (trace : list Effect) : list File :=
  flat_map (fun e => match e with
                     | FileToBase64 file => [file]
                     | _ => []
                     end) trace.

(** The files of a list that the handler accepts. *)
Definition images (files : list File) : list File :=
  filter (fun file => Js.startsWith (f_type file) "image/") files.

(** The call of the backend that an accepted item leads to, if its file could
    be read. *)
Definition invocation_of (so : Screenshot * Outcome)
  : list (string * string * Metadata) :=
  match snd so with
  | ReadRejected _ => []
  | InvokeRejected base64 _ | Responded base64 _ =>
      [("process_screenshot_direct", base64,
        {| m_source := "frontend_upload";
           m_app := "Screenshot AI Studio";
           m_filename := name (fst so) |})]
  end.

(** [s.includes(c)] for one character. *)
Fixpoint includes (c : ascii) (s : string) : bool :=
  match s with
  | EmptyString => false
  | String d rest => Ascii.eqb d c || includes c rest
  end.

(** Events delivered to the listener one after the other. *)
Definition deliver_all (payloads : list Payload) (prev : list Screenshot)
  : list Screenshot :=
  fold_left (fun h p => on_screenshot_processed p h) payloads prev.

End AppView.

(** ** [src/components/DropZone.tsx]: the handlers and the drag state *)
Module DropZoneState.

(** The events the drop zone handles; [files] is [e.dataTransfer.files], or
    [target.files] of the file dialog that a click opens, [None] when null. *)
Inductive Event : Type :=
| DragOver
| DragLeave
| Drop (files : option (list App.File))
| Click (files : option (list App.File)).

(** [handleDragOver], [handleDragLeave], [handleDrop] and [handleClick]: the
    new value of [isDragOver] and the list passed to [onFilesDropped], if it
    is called. *)
Definition handle (e : Event) (isDragOver : bool)
  : bool * option (list App.File) :=
  match e with
  | DragOver => (true, None)
  | DragLeave => (false, None)
  | Drop files => (false, files)
  | Click files => (isDragOver, files)
  end.

(** The drag state and the lists passed to [onFilesDropped], in order, after
    a sequence of events. *)
Fixpoint handle_all (events : list Event) (isDragOver : bool)
  : bool * list (list App.File) :=
  match events with
  | [] => (isDragOver, [])
  | e :: rest =>
      let (b, passed) := handle e isDragOver in
      let (b', later) := handle_all rest b in
      (b', match passed with
           | Some files => files :: later
           | None => later
           end)
  end.

End DropZoneState.

(** ** [src/components/ServerConfig.tsx]: the other actions of the panel *)
Module ServerActions.
Import ServerConfigPanel.

(** The backend commands the panel invokes, with their arguments. *)
Inductive Command : Type :=
| LoadEnvConfig
| GetServerStatus
| StopServer
| ToggleDesktopDetection (enable : bool)
| ProcessScreenshotDirect (imageBase64 : string) (metadata : App.Metadata).

Inductive Effect : Type :=
| Alert (msg : string)
| ConsoleError (msg : string)
| Invoke (command : Command).

Definition setConfig (c : ServerConfig) (st : State) : State :=
  {| config := c; serverInfo := serverInfo st; isLoading := isLoading st;
     showPasswords := showPasswords st; showSetup := showSetup st;
     recentProcessing := recentProcessing st |}.

Definition setShowPasswords (b : bool) (st : State) : State :=
  {| config := config st; serverInfo := serverInfo st;
     isLoading := isLoading st; showPasswords := b;
     showSetup := showSetup st; recentProcessing := recentProcessing st |}.

Definition setRecentProcessing (l : list App.ProcessingResponse) (st : State)
  : State :=
  {| config := config st; serverInfo := serverInfo st;
     isLoading := isLoading st; showPasswords := showPasswords st;
     showSetup := showSetup st; recentProcessing := l |}.

(** [loadConfig]; [loaded] is how [invoke('load_env_config')] ends. *)
Definition loadConfig (loaded : ServerConfig + string) (st : State)
  : State * list Effect :=
  match loaded with
  | inl loadedConfig => (setConfig loadedConfig st, [Invoke LoadEnvConfig])
  | inr _ =>
      (st, [Invoke LoadEnvConfig; ConsoleError "Failed to load config:"])
  end.

(** [checkServerStatus]; [answered] is how [invoke('get_server_status')]
    ends: with the server's info or null, or rejected. *)
Definition checkServerStatus (answered : option ServerInfo + string)
    (st : State) : State * list Effect :=
  match answered with
  | inl status => (setServerInfo status st, [Invoke GetServerStatus])
  | inr _ =>
      (setServerInfo None st,
       [Invoke GetServerStatus; ConsoleError "Failed to get server status:"])
  end.

(** [stopServer]; [stopped] is how [invoke('stop_server')] ends. *)
Definition stopServer (stopped : unit + string) (st : State)
  : State * list Effect :=
  let st := setIsLoading true st in
  match stopped with
  | inl _ =>
      (setIsLoading false (setServerInfo None st), [Invoke StopServer])
  | inr err =>
      (setIsLoading false st,
       [Invoke StopServer;
        ConsoleError "Failed to stop server:";
        Alert ("Failed to stop server: " ++ err)])
  end.

(** [{ ...serverInfo, desktop_detection: newState }] *)
Definition with_desktop_detection (newState : bool) (info : ServerInfo)
  : ServerInfo :=
  {| status := status info; local_ip := local_ip info; port := port info;
     endpoint_url := endpoint_url info; desktop_detection := newState;
     telegram_configured := telegram_configured info |}.

(** [toggleDesktopDetection]; [toggled] is how
    [invoke('toggle_desktop_detection')] ends if it is reached. *)
Definition toggleDesktopDetection (toggled : unit + string) (st : State)
  : State * list Effect :=
  match serverInfo st with
  | None => (st, [])
  | Some info =>
      let newState := negb (desktop_detection info) in
      match toggled with
      | inl _ =>
          (setServerInfo (Some (with_desktop_detection newState info)) st,
           [Invoke (ToggleDesktopDetection newState)])
      | inr err =>
          (st,
           [Invoke (ToggleDesktopDetection newState);
            ConsoleError "Failed to toggle desktop detection:";
            Alert ("Failed to toggle desktop detection: " ++ err)])
      end
  end.

(** [toggleDesktopDetection] up to its [await]: what the handler has read
    from the [serverInfo] of the render it was created in, and the flag it
    asks the backend for; [None] when it returns at once. *)
Definition toggle_request (st : State) : option (ServerInfo * bool) :=
  match serverInfo st with
  | None => None
  | Some info => Some (info, negb (desktop_detection info))
  end.

(** [toggleDesktopDetection] after its [await], on the state of that moment:
    the server info written is the one read before the [await], with the
    flag that was asked for. *)
Definition toggle_settle (request : ServerInfo * bool)
    (toggled : unit + string) (st : State) : State * list Effect :=
  match toggled with
  | inl _ =>
      (setServerInfo
         (Some (with_desktop_detection (snd request) (fst request))) st,
       [])
  | inr err =>
      (st,
       [ConsoleError "Failed to toggle desktop detection:";
        Alert ("Failed to toggle desktop detection: " ++ err)])
  end.

(** The 1x1 red pixel of [testScreenshotProcessing]. *)
Definition testImageBase64 : string :=
  "iVBORw0KGgoAAAANSUhEUgAAAAEAAAABCAYAAAAfFcSJAAAADUlEQVR42mP8/5+hHgAHggJ/PchI7wAAAABJRU5ErkJggg==".

Definition test_metadata : App.Metadata :=
  {| App.m_source := "test";
     App.m_app := "Screenshot AI Studio";
     App.m_filename := "test.png" |}.

(** A value of type [string | undefined] inside a template literal. *)
Definition interpolate (v : option string) : string :=
  match v with
  | Some s => s
  | None => "undefined"
  end.

(** [testScreenshotProcessing]; [tested] is how
    [invoke('process_screenshot_direct')] ends. *)
Definition testScreenshotProcessing (tested : App.ProcessingResponse + string)
    (st : State) : State * list Effect :=
  let call := Invoke (ProcessScreenshotDirect testImageBase64 test_metadata) in
  match tested with
  | inl result =>
      (setRecentProcessing (result :: firstn 4 (recentProcessing st)) st,
       [call;
        if App.success result
        then Alert ("âœ… Test successful!" ++ Js.nl ++ Js.nl ++ "Analysis: "
                    ++ interpolate (App.summary result))
        else Alert ("âŒ Test failed: " ++ interpolate (App.r_error result))])
  | inr err =>
      (st, [call; ConsoleError "Test failed:"; Alert ("Test failed: " ++ err)])
  end.

(** The responses among the outcomes of tests, the most recent first. *)
Definition responses (outcomes : list (App.ProcessingResponse + string))
  : list App.ProcessingResponse :=
  rev (flat_map (fun o => match o with
                          | inl result => [result]
                          | inr _ => []
                          end) outcomes).

(** The tests run one after the other. *)
Definition run_tests (outcomes : list (App.ProcessingResponse + string))
    (st : State) : State :=
  fold_left (fun st o => fst (testScreenshotProcessing o st)) outcomes st.

End ServerActions.

(** * Properties *)

(** ** The event listener *)
Section Listener.
Import App.

Lemma isDuplicate_spec (prev : list Screenshot) (s : Screenshot) :
  isDuplicate prev s = true <->
  exists existing, In existing prev /\ id existing = id s.
Proof.
  unfold isDuplicate. rewrite existsb_exists.
  split; intros [x [Hin Hx]]; exists x; split; trivial.
  - now apply String.eqb_eq.
  - now apply String.eqb_eq.
Qed.

Lemma isDuplicate_after_add (prev : list Screenshot) (s : Screenshot) :
  isDuplicate (add_unless_duplicate s prev) s = true.
Proof.
  unfold add_unless_duplicate.
  destruct (isDuplicate prev s) eqn:Hdup; trivial.
  unfold isDuplicate. simpl. now rewrite String.eqb_refl.
Qed.

(** C9. Handling a [screenshot-processed] event is idempotent per id: when
    the id of the payload is the id of an item of the list, the listener
    leaves the list as it is; hence delivering an event twice gives the same
    list as delivering it once. *)
Theorem listener_idempotent_per_id (p : Payload) (prev : list Screenshot) :
  ((exists existing, In existing prev /\ id existing = p_id p) ->
   on_screenshot_processed p prev = prev)
  /\ on_screenshot_processed p (on_screenshot_processed p prev)
     = on_screenshot_processed p prev.
Proof.
  split.
  - intros Hex. unfold on_screenshot_processed, add_unless_duplicate.
    replace (isDuplicate prev (newScreenshot p)) with true; trivial.
    symmetry. apply isDuplicate_spec. exact Hex.
  - unfold on_screenshot_processed.
    unfold add_unless_duplicate at 1.
    now rewrite isDuplicate_after_add.
Qed.

Lemma listener_idempotent_per_id_witness :
  let prev := [newScreenshot Examples.event_without_defaults] in
  (exists existing, In existing prev
                    /\ id existing = p_id Examples.event_without_defaults)
  /\ on_screenshot_processed Examples.event_without_defaults prev = prev.
Proof.
  intro prev.
  assert (H : exists existing, In existing prev
                /\ id existing = p_id Examples.event_without_defaults).
  { exists (newScreenshot Examples.event_without_defaults).
    split; [left; reflexivity | reflexivity]. }
  split; [exact H |].
  exact (proj1 (listener_idempotent_per_id
                  Examples.event_without_defaults prev) H).
Defined.

(** C10. The listener applies defaults to the payload of an event: a payload
    without [status] gives an item whose status is [completed], a payload
    without [source] gives an item whose source is [desktop_auto], and the
    other fields (id, name, size, type, timestamp, analysis) are those of the
    payload.  The item is the one put in front of the list when its id is
    new. *)
Theorem event_payload_defaults (p : Payload) (prev : list Screenshot) :
  isDuplicate prev (newScreenshot p) = false ->
  exists item,
    on_screenshot_processed p prev = item :: prev
    /\ (p_status p = None -> status item = completed)
    /\ (p_source p = None -> source item = Some "desktop_auto")
    /\ id item = p_id p
    /\ name item = p_name p
    /\ size item = p_size p
    /\ type item = p_type p
    /\ timestamp item = p_timestamp p
    /\ analysis item = p_analysis p.
Proof.
  intros Hnew. exists (newScreenshot p).
  unfold on_screenshot_processed, add_unless_duplicate. rewrite Hnew.
  split; [reflexivity |].
  split; [intros Hs; simpl; now rewrite Hs |].
  split; [intros Hs; simpl; now rewrite Hs |].
  repeat split.
Qed.

Lemma event_payload_defaults_witness :
  exists item,
    on_screenshot_processed Examples.event_without_defaults [] = [item]
    /\ status item = completed
    /\ source item = Some "desktop_auto"
    /\ analysis item = Some "A terminal window.".
Proof.
  destruct (event_payload_defaults Examples.event_without_defaults []
              eq_refl)
    as [item [Hl [Hst [Hsrc [_ [_ [_ [_ [_ Han]]]]]]]]].
  exists item. split; [exact Hl |].
  split; [exact (Hst eq_refl) |].
  split; [exact (Hsrc eq_refl) | exact Han].
Defined.

(** A status or a non-empty source that the payload does carry is kept. *)
Lemma event_payload_given_fields (p : Payload) (st : Status) (src : string) :
  p_status p = Some st -> p_source p = Some src -> src <> "" ->
  status (newScreenshot p) = st /\ source (newScreenshot p) = Some src.
Proof.
  intros Hst Hsrc Hne. simpl. rewrite Hst, Hsrc. simpl.
  destruct (String.eqb_spec src ""); [contradiction | split; reflexivity].
Qed.

End Listener.

(** ** Starting the server *)
Section StartServer.
Import ServerConfigPanel.

(** C5. When the Anthropic API key of the configuration is absent (missing or
    empty), [startServer] fails at once with the validation alert: the
    backend command [start_server] is not invoked, so no session is created
    and no server started, and the state of the component, the server info
    included, is unchanged. *)
Theorem start_without_credential (started : ServerInfo + string) (st : State) :
  anthropic_api_key (config st) = None
  \/ anthropic_api_key (config st) = Some "" ->
  let (st', effects) := startServer started st in
  st' = st
  /\ effects = [Alert "Anthropic API key is required!"]
  /\ (forall c, ~ In (InvokeStartServer c) effects)
  /\ serverInfo st' = serverInfo st
  /\ isServerRunning st' = isServerRunning st.
Proof.
  intros Habsent. unfold startServer.
  assert (Hfalsy : Js.truthy (anthropic_api_key (config st)) = false)
    by (destruct Habsent as [-> | ->]; reflexivity).
  rewrite Hfalsy. simpl.
  repeat split; trivial.
  intros c [Hc | []]. discriminate Hc.
Qed.

Lemma start_without_credential_witness :
  startServer (inl Examples.some_info) Examples.no_key_state
  = (Examples.no_key_state, [Alert "Anthropic API key is required!"]).
Proof.
  pose proof (start_without_credential (inl Examples.some_info)
                Examples.no_key_state (or_intror eq_refl)) as H.
  destruct (startServer (inl Examples.some_info) Examples.no_key_state)
    as [st' effects].
  destruct H as [Hst [Heff _]]. now rewrite Hst, Heff.
Defined.

(** With the key absent the start button of the setup dialog is disabled, and
    a click on it does nothing at all. *)
Lemma click_start_without_credential (started : ServerInfo + string)
    (st : State) :
  Js.truthy (anthropic_api_key (config st)) = false ->
  start_disabled st = true /\ click_start started st = (st, []).
Proof.
  intros Hfalsy. unfold click_start, start_disabled. rewrite Hfalsy.
  rewrite orb_true_r. split; reflexivity.
Qed.

(** With a key, the backend is asked to start the server. *)
Lemma start_with_credential (started : ServerInfo + string) (st : State) :
  Js.truthy (anthropic_api_key (config st)) = true ->
  In (InvokeStartServer (config st)) (snd (startServer started st)).
Proof.
  intros Hkey. unfold startServer. rewrite Hkey. simpl.
  destruct started; simpl; auto.
Qed.

End StartServer.

(** ** The pipeline of the backend *)
Section PipelineFacts.
Import Pipeline.

(** C7. When the analysis step succeeds, the item is finalized as COMPLETED
    with the summary as its analysis summary and no error detail, whatever
    the notification delivery does: a failed delivery adds an entry to the
    log and changes nothing else (the result, the history, the next id and
    the published events are those of a run whose delivery succeeds). *)
Theorem completed_despite_notification_failure
    (decode : list Byte.byte -> option Decoded)
    (provider : nat -> Decoded -> Source -> string -> string + FailureKind)
    (deliver : ProcessedItem -> string + FailureKind -> bool)
    (st : State) (bytes : list Byte.byte) (src : Source)
    (filename ts : string) (d : Decoded) (text : string) :
  decode bytes = Some d ->
  analyse provider d src filename = inl text ->
  let delivering := fun _ _ => true in
  let (st', r) := submit decode provider deliver st bytes src filename ts in
  let (st_ok, r_ok) :=
    submit decode provider delivering st bytes src filename ts in
  (exists item,
      r = Finalized item
      /\ status item = COMPLETED
      /\ analysisSummary item = Some text
      /\ errorDetail item = None
      /\ (exists rest, history st' = item :: rest))
  /\ r = r_ok
  /\ history st' = history st_ok
  /\ next_id st' = next_id st_ok
  /\ events st' = events st_ok
  /\ (deliver (fresh_item st d src filename ts) (inl text) = false ->
      log st' = NotificationDeliveryFailed (next_id st) :: log st).
Proof.
  intros Hdec Han. unfold submit. rewrite Hdec, Han. simpl.
  rewrite Nat.eqb_refl.
  split.
  - eexists. split; [reflexivity |]. simpl. repeat split. eexists. reflexivity.
  - repeat split. intros Hfail. now rewrite Hfail.
Qed.

Lemma completed_despite_notification_failure_witness :
  exists st' item,
    submit Examples.stub_decode Examples.stub_provider
           Examples.stub_deliver_fails Examples.empty_pipeline
           [Byte.x89; Byte.x50; Byte.x4e; Byte.x47] MANUAL_UPLOAD
           "test.png" "2025-08-27T11:48:12.000Z"
    = (st', Finalized item)
    /\ status item = COMPLETED
    /\ analysisSummary item = Some "A red pixel."
    /\ log st' = [NotificationDeliveryFailed 0].
Proof.
  pose proof (completed_despite_notification_failure
                Examples.stub_decode Examples.stub_provider
                Examples.stub_deliver_fails Examples.empty_pipeline
                [Byte.x89; Byte.x50; Byte.x4e; Byte.x47] MANUAL_UPLOAD
                "test.png" "2025-08-27T11:48:12.000Z"
                _ "A red pixel." eq_refl eq_refl) as H.
  cbv zeta in H.
  destruct (submit Examples.stub_decode Examples.stub_provider
              Examples.stub_deliver_fails Examples.empty_pipeline
              [Byte.x89; Byte.x50; Byte.x4e; Byte.x47] MANUAL_UPLOAD
              "test.png" "2025-08-27T11:48:12.000Z") as [st' r].
  destruct (submit Examples.stub_decode Examples.stub_provider
              (fun _ _ => true) Examples.empty_pipeline
              [Byte.x89; Byte.x50; Byte.x4e; Byte.x47] MANUAL_UPLOAD
              "test.png" "2025-08-27T11:48:12.000Z") as [st_ok r_ok].
  destruct H as [[item [Hr [Hst [Hsum _]]]] [_ [_ [_ [_ Hlog]]]]].
  exists st', item. rewrite Hr.
  split; [reflexivity |]. split; [exact Hst |]. split; [exact Hsum |].
  exact (Hlog eq_refl).
Defined.

(** The retry policy of the analysis client: a timeout followed by an answer
    is a success. *)
Lemma analyse_retries_once (provider : nat -> Decoded -> Source -> string
                                       -> string + FailureKind)
    (d : Decoded) (src : Source) (filename text : string) :
  provider 0 d src filename = inr TIMEOUT ->
  provider 1 d src filename = inl text ->
  analyse provider d src filename = inl text.
Proof. intros H0 H1. unfold analyse. now rewrite H0. Qed.

End PipelineFacts.

(** ** Identifiers of dropped files *)
Section Identifiers.
Import App.

Lemma has_dash_app (a b : string) :
  Js.has_dash (a ++ b) = Js.has_dash a || Js.has_dash b.
Proof.
  induction a as [| c a IH]; simpl; trivial.
  rewrite IH. now rewrite orb_assoc.
Qed.

Lemma digits_have_no_dash (d : Decimal.uint) :
  Js.has_dash (NilEmpty.string_of_uint d) = false.
Proof. induction d; simpl; trivial. Qed.

Lemma index_has_no_dash (i : nat) :
  Js.has_dash (Js.number_to_string (Z.of_nat i)) = false.
Proof.
  unfold Js.number_to_string.
  destruct (Z.of_nat i) as [| p | p] eqn:Hi; try lia.
  - reflexivity.
  - simpl. unfold NilZero.string_of_uint.
    destruct (Pos.to_uint p) eqn:Hp; trivial;
      rewrite <- Hp; apply digits_have_no_dash.
Qed.

(** A text is cut in one way only at its last dash. *)
Lemma split_at_last_dash (a a' b b' : string) :
  Js.has_dash b = false -> Js.has_dash b' = false ->
  a ++ "-" ++ b = a' ++ "-" ++ b' -> a = a' /\ b = b'.
Proof.
  intros Hb Hb'. revert a'.
  induction a as [| c a IH]; intros [| c' a'] Heq; simpl in Heq.
  - injection Heq as Heq. now split.
  - injection Heq as Hc Heq. subst b.
    rewrite has_dash_app in Hb. simpl in Hb.
    now rewrite orb_true_r in Hb.
  - injection Heq as Hc Heq. subst b'.
    rewrite has_dash_app in Hb'. simpl in Hb'.
    now rewrite orb_true_r in Hb'.
  - injection Heq as Hc Heq. subst c'.
    destruct (IH a' Heq) as [-> ->]. now split.
Qed.

Lemma to_int_no_nil (z : Z) :
  Z.to_int z <> Decimal.Pos Decimal.Nil /\ Z.to_int z <> Decimal.Neg Decimal.Nil.
Proof.
  destruct z as [| p | p]; simpl; split; try discriminate;
    intros [= H]; now apply (Unsigned.to_uint_nonnil p).
Qed.

Lemma number_to_string_inj (z z' : Z) :
  Js.number_to_string z = Js.number_to_string z' -> z = z'.
Proof.
  unfold Js.number_to_string. intros Heq.
  apply DecimalZ.to_int_inj.
  destruct (to_int_no_nil z) as [Hp Hn].
  destruct (to_int_no_nil z') as [Hp' Hn'].
  pose proof (NilZero.isi (Z.to_int z) Hp Hn) as H.
  pose proof (NilZero.isi (Z.to_int z') Hp' Hn') as H'.
  rewrite Heq in H. rewrite H in H'. now injection H'.
Qed.

(** The id determines the reading of the clock and the index. *)
Lemma make_id_inj (t t' : Z) (i i' : nat) :
  make_id t i = make_id t' i' -> t = t' /\ i = i'.
Proof.
  unfold make_id. intros Heq.
  apply split_at_last_dash in Heq; try apply index_has_no_dash.
  destruct Heq as [Ht Hi].
  apply number_to_string_inj in Ht. apply number_to_string_inj in Hi.
  split; [exact Ht | lia].
Qed.

(** Within one call of the handler the ids differ, whatever the clock reads:
    the indices differ. *)
Lemma ids_differ_within_a_drop (t t' : Z) (iso iso' : string) (i i' : nat)
    (file file' : File) :
  i <> i' ->
  id (screenshot_of t iso i file) <> id (screenshot_of t' iso' i' file').
Proof. intros Hne Heq. simpl in Heq. apply make_id_inj in Heq. tauto. Qed.

(** Across calls the ids differ when the clock readings do. *)
Lemma ids_differ_at_other_instants (t t' : Z) (iso iso' : string) (i i' : nat)
    (file file' : File) :
  t <> t' ->
  id (screenshot_of t iso i file) <> id (screenshot_of t' iso' i' file').
Proof. intros Hne Heq. simpl in Heq. apply make_id_inj in Heq. tauto. Qed.

(** Whatever the files, the lists they are in and the outcomes: the id depends
    on nothing but the reading of the clock and the index. *)
Lemma id_depends_on_clock_and_index (t : Z) (iso iso' : string) (i : nat)
    (file file' : File) :
  id (screenshot_of t iso i file) = id (screenshot_of t iso' i file').
Proof. reflexivity. Qed.

End Identifiers.

(** ** The list of screenshots over time *)
Section History.
Import App.
Local Open Scope list_scope.

Lemma screenshots_after_app (t1 t2 : list Effect) (h : list Screenshot) :
  screenshots_after (t1 ++ t2) h = screenshots_after t2 (screenshots_after t1 h).
Proof. unfold screenshots_after. apply fold_left_app. Qed.

Lemma screenshots_after_cons (e : Effect) (t : list Effect)
    (h : list Screenshot) :
  screenshots_after (e :: t) h = screenshots_after t (step e h).
Proof. reflexivity. Qed.

Lemma evolves_refl (s : Screenshot) : evolves s s.
Proof. split; trivial. Qed.

Lemma evolves_trans (a b c : Screenshot) :
  evolves a b -> evolves b c -> evolves a c.
Proof.
  intros [Hab Pab] [Hbc Pbc]. split.
  - congruence.
  - intros Hc. specialize (Pbc Hc). subst c. auto.
Qed.

Lemma evolves_all_refl (h : list Screenshot) : Forall2 evolves h h.
Proof. induction h; constructor; auto using evolves_refl. Qed.

Lemma evolves_all_trans (a b c : list Screenshot) :
  Forall2 evolves a b -> Forall2 evolves b c -> Forall2 evolves a c.
Proof.
  intros Hab. revert c.
  induction Hab as [| x y a b Hxy Hab IH]; intros c Hbc;
    inversion Hbc; subst; constructor; eauto using evolves_trans.
Qed.

Lemma evolves_with_results (result : ProcessingResponse) (s : Screenshot) :
  evolves s (with_results result s).
Proof.
  split; [reflexivity |]. simpl. destruct (success result); discriminate.
Qed.

Lemma evolves_with_failure (err : string) (s : Screenshot) :
  evolves s (with_failure err s).
Proof. split; [reflexivity | discriminate]. Qed.

Lemma update_by_id_evolves (sid : string) (f : Screenshot -> Screenshot)
    (h : list Screenshot) :
  (forall s, evolves s (f s)) -> Forall2 evolves h (update_by_id sid f h).
Proof.
  intros Hf. unfold update_by_id.
  induction h as [| s h IH]; simpl; constructor; trivial.
  destruct (id s =? sid); auto using evolves_refl.
Qed.

Lemma extends_refl (h : list Screenshot) : extends h h.
Proof. exists [], h. split; [reflexivity | apply evolves_all_refl]. Qed.

Lemma extends_trans (a b c : list Screenshot) :
  extends a b -> extends b c -> extends a c.
Proof.
  intros [n1 [u1 [-> H1]]] [n2 [u2 [-> H2]]].
  apply Forall2_app_inv_l in H2 as [n1' [u1' [Hn [Hu ->]]]].
  exists (n2 ++ n1'), u1'. split.
  - now rewrite app_assoc.
  - eauto using evolves_all_trans.
Qed.

Lemma apply_setter_extends (u : Setter) (h : list Screenshot) :
  extends h (apply_setter u h).
Proof.
  destruct u as [s | sid result | sid err | s]; simpl.
  - exists [s], h. split; [reflexivity | apply evolves_all_refl].
  - exists [], (update_by_id sid (with_results result) h).
    split; [reflexivity |].
    apply update_by_id_evolves, evolves_with_results.
  - exists [], (update_by_id sid (with_failure err) h).
    split; [reflexivity |].
    apply update_by_id_evolves, evolves_with_failure.
  - unfold add_unless_duplicate. destruct (isDuplicate h s).
    + apply extends_refl.
    + exists [s], h. split; [reflexivity | apply evolves_all_refl].
Qed.

Lemma step_extends (e : Effect) (h : list Screenshot) : extends h (step e h).
Proof.
  destruct e; simpl; try apply extends_refl. apply apply_setter_extends.
Qed.

(** Whatever the handlers and the listener do, in whatever order, the list
    only grows at its front and its items only evolve in place. *)
Lemma trace_extends (trace : list Effect) (h : list Screenshot) :
  extends h (screenshots_after trace h).
Proof.
  revert h. induction trace as [| e trace IH]; intros h.
  - apply extends_refl.
  - rewrite screenshots_after_cons.
    eapply extends_trans; [apply step_extends | apply IH].
Qed.

Lemma nth_error_middle (A : Type) (l r : list A) (x : A) :
  nth_error (l ++ x :: r) (List.length l) = Some x.
Proof. induction l; simpl; trivial. Qed.

Lemma finalization_in_place (sid : string) (f : Screenshot -> Screenshot)
    (h : list Screenshot) :
  (forall s, immutable (f s) = immutable s) ->
  map immutable (update_by_id sid f h) = map immutable h.
Proof.
  intros Hf. unfold update_by_id. rewrite map_map. apply map_ext.
  intros s. destruct (id s =? sid); auto.
Qed.

(** C2. The list is ordered by the time of appending, most recent first:
    when an item [a] is appended and later an item [b], then, whatever
    happens before, in between and afterwards ([t1], [t2], [t3]: any effects
    of any handlers and events, finalizations in any order included), [a]
    still occupies the slot it was appended in, [b] occupies its own, and [b]
    is nearer the front of the list than [a].  A finalization changes no
    immutable field, position or length: it updates items in place. *)
Theorem history_most_recent_first (t1 t2 t3 : list Effect)
    (h0 : list Screenshot) (a b : Screenshot) :
  let add_a := SetScreenshots (AddToState a) in
  let add_b := SetScreenshots (AddToState b) in
  let slot_a := List.length (screenshots_after t1 h0) in
  let slot_b := List.length (screenshots_after (t1 ++ add_a :: t2) h0) in
  let h := screenshots_after (t1 ++ add_a :: t2 ++ add_b :: t3) h0 in
  option_map immutable (nth_error h (position h slot_a)) = Some (immutable a)
  /\ option_map immutable (nth_error h (position h slot_b))
     = Some (immutable b)
  /\ position h slot_b < position h slot_a
  /\ (forall sid result hist,
        map immutable (apply_setter (UpdateWithResults sid result) hist)
        = map immutable hist)
  /\ (forall sid err hist,
        map immutable (apply_setter (UpdateFailed sid err) hist)
        = map immutable hist).
Proof.
  intros add_a add_b slot_a slot_b h. subst add_a add_b slot_a slot_b h.
  rewrite !screenshots_after_app, !screenshots_after_cons.
  rewrite screenshots_after_app, screenshots_after_cons. simpl step.
  set (ha := screenshots_after t1 h0).
  destruct (trace_extends t2 (a :: ha)) as [n2 [u2 [E2 F2]]].
  rewrite E2.
  inversion F2 as [| ? a' ? ha' Ha Hha]; subst.
  destruct (trace_extends t3 (b :: n2 ++ a' :: ha')) as [n3 [u3 [E3 F3]]].
  rewrite E3.
  inversion F3 as [| ? b' ? u3' Hb Hu3]; subst.
  apply Forall2_app_inv_l in Hu3 as [n2' [r [Hn2 [Hr ->]]]].
  inversion Hr as [| ? a'' ? ha'' Ha' Hha']; subst.
  apply Forall2_length in Hha, Hha', Hn2.
  unfold position. rewrite !length_app. simpl. rewrite !length_app. simpl.
  replace (List.length n3 + S (List.length n2' + S (List.length ha''))
           - 1 - List.length ha)
    with (List.length (n3 ++ b' :: n2')) by (rewrite length_app; simpl; lia).
  replace (List.length n3 + S (List.length n2' + S (List.length ha''))
           - 1 - (List.length n2 + S (List.length ha')))
    with (List.length n3) by lia.
  split; [| split; [| split; [| split]]].
  - replace (n3 ++ b' :: n2' ++ a'' :: ha'')
      with ((n3 ++ b' :: n2') ++ a'' :: ha'')
      by (rewrite <- app_assoc; reflexivity).
    rewrite nth_error_middle. simpl. f_equal.
    destruct Ha as [Ha _], Ha' as [Ha' _]. congruence.
  - rewrite nth_error_middle. simpl. f_equal. now destruct Hb.
  - rewrite length_app. simpl. lia.
  - intros. simpl. now apply finalization_in_place.
  - intros. simpl. now apply finalization_in_place.
Qed.

Lemma evolves_all_rev (a b : list Screenshot) :
  Forall2 evolves a b -> Forall2 evolves (rev a) (rev b).
Proof.
  induction 1 as [| x y a b Hxy Hab IH]; simpl.
  - constructor.
  - apply Forall2_app; [exact IH | constructor; [exact Hxy | constructor]].
Qed.

Lemma evolves_all_nth (a b : list Screenshot) (k : nat) (s : Screenshot) :
  Forall2 evolves a b -> nth_error a k = Some s ->
  exists s', nth_error b k = Some s' /\ evolves s s'.
Proof.
  intros Hab. revert k.
  induction Hab as [| x y a b Hxy Hab IH]; intros [| k] Hk; simpl in *;
    try discriminate.
  - injection Hk as <-. eauto.
  - auto.
Qed.

(** An item keeps its slot for ever, and only evolves there. *)
Lemma slot_evolves (trace : list Effect) (h : list Screenshot) (k : nat)
    (s : Screenshot) :
  slot h k = Some s ->
  exists s', slot (screenshots_after trace h) k = Some s' /\ evolves s s'.
Proof.
  intros Hk. destruct (trace_extends trace h) as [news [upd [-> Hupd]]].
  unfold slot in *. rewrite rev_app_distr.
  destruct (evolves_all_nth _ _ k s (evolves_all_rev _ _ Hupd) Hk)
    as [s' [Hs' Hev]].
  exists s'. split; [| exact Hev].
  rewrite nth_error_app1; [exact Hs' |].
  apply nth_error_Some. congruence.
Qed.

(** No item re-enters the [processing] state: an item that has left it is
    never found in it again, whatever happens afterwards. *)
Lemma never_back_to_processing (trace : list Effect) (h : list Screenshot)
    (k : nat) (s : Screenshot) :
  slot h k = Some s -> status s <> processing ->
  exists s', slot (screenshots_after trace h) k = Some s'
             /\ status s' <> processing.
Proof.
  intros Hk Hs. destruct (slot_evolves trace h k s Hk) as [s' [Hs' [_ Hp]]].
  exists s'. split; [exact Hs' |].
  intros Hproc. apply Hs. now rewrite <- (Hp Hproc).
Qed.

End History.

(** ** Dropped files *)
Section Drops.
Import App.
Local Open Scope list_scope.

Lemma loop_app (pc : Z) (env : nat -> Tick) (i : nat)
    (before after : list File) :
  loop pc env i (before ++ after)
  = loop pc env i before ++ loop pc env (i + List.length before) after.
Proof.
  revert i. induction before as [| f before IH]; intros i; simpl.
  - now rewrite Nat.add_0_r.
  - rewrite IH, <- app_assoc.
    now replace (S i + List.length before) with (i + S (List.length before))
      by lia.
Qed.

Lemma other_id_is_kept (sid : string) (f : Screenshot -> Screenshot)
    (s : Screenshot) (h : list Screenshot) :
  id s <> sid -> update_by_id sid f (s :: h) = s :: update_by_id sid f h.
Proof.
  intros Hne. unfold update_by_id. simpl.
  destruct (String.eqb_spec (id s) sid); [contradiction | reflexivity].
Qed.

Lemma update_by_id_absent (sid : string) (f : Screenshot -> Screenshot)
    (h : list Screenshot) :
  (forall s, In s h -> id s <> sid) -> update_by_id sid f h = h.
Proof.
  induction h as [| s h IH]; intros Hh; trivial.
  rewrite other_id_is_kept by (apply Hh; now left).
  f_equal. apply IH. intros s' Hs'. apply Hh. now right.
Qed.

Lemma finalize_id (o : Outcome) (s : Screenshot) : id (finalize o s) = id s.
Proof. now destruct o. Qed.

Lemma finalize_terminal (o : Outcome) (s : Screenshot) :
  status (finalize o s) = completed \/ status (finalize o s) = error.
Proof. destruct o; simpl; auto. destruct (success result); auto. Qed.

(** One turn of the loop for an image: the item is put in front and
    finalized there; the finalization also reaches the older items that have
    its id. *)
Lemma iteration_state (pc : Z) (i : nat) (file : File) (t : Tick)
    (prev : list Screenshot) :
  Js.startsWith (f_type file) "image/" = true ->
  let s := screenshot_of (now t) (iso t) i file in
  screenshots_after (iteration pc i file t) prev
  = finalize (outcome t) s
    :: update_by_id (id s) (finalize (outcome t)) prev.
Proof.
  intros Himage s. unfold iteration. rewrite Himage. simpl negb. cbv iota.
  fold s. unfold try_block, finally_block.
  destruct (outcome t) as [err | base64 err | base64 result];
    [ | | destruct (success result) eqn:Hs];
    destruct (pc <=? 1)%Z; simpl; now rewrite String.eqb_refl.
Qed.

Lemma accepted_ids (env : nat -> Tick) (i : nat) (files : list File)
    (so : Screenshot * Outcome) :
  In so (accepted env i files) ->
  exists t k, i <= k /\ id (fst so) = make_id t k.
Proof.
  revert i. induction files as [| file rest IH]; intros i Hin; simpl in Hin.
  - contradiction.
  - destruct (Js.startsWith (f_type file) "image/").
    + destruct Hin as [<- | Hin].
      * exists (now (env i)), i. split; [lia | reflexivity].
      * destruct (IH _ Hin) as [t [k [Hk Hid]]]. exists t, k. split; [lia | auto].
    + destruct (IH _ Hin) as [t [k [Hk Hid]]]. exists t, k. split; [lia | auto].
Qed.

Lemma finalize_all_skips (items : list (Screenshot * Outcome))
    (x : Screenshot) (h : list Screenshot) :
  (forall so, In so items -> id x <> id (fst so)) ->
  finalize_all items (x :: h) = x :: finalize_all items h.
Proof.
  revert h. unfold finalize_all.
  induction items as [| so items IH]; intros h Hne; cbn [fold_left]; trivial.
  rewrite other_id_is_kept by (apply Hne; now left).
  apply IH. intros so' Hso'. apply Hne. now right.
Qed.

Lemma loop_state (pc : Z) (env : nat -> Tick) (files : list File) (i : nat)
    (prev : list Screenshot) :
  screenshots_after (loop pc env i files) prev
  = rev (map (fun so => finalize (snd so) (fst so)) (accepted env i files))
    ++ finalize_all (accepted env i files) prev.
Proof.
  revert i prev. induction files as [| file rest IH]; intros i prev; simpl.
  - reflexivity.
  - rewrite screenshots_after_app.
    destruct (Js.startsWith (f_type file) "image/") eqn:Himage.
    + rewrite iteration_state by exact Himage. rewrite IH.
      rewrite finalize_all_skips.
      * simpl. now rewrite <- app_assoc.
      * intros so Hso. rewrite finalize_id. simpl.
        destruct (accepted_ids _ _ _ _ Hso) as [t [k [Hk ->]]].
        intros Heq. apply make_id_inj in Heq. lia.
    + unfold iteration at 1. rewrite Himage. simpl. apply IH.
Qed.

(** One call of the handler, run on its own: every accepted file is in the
    list, most recent first, finalized once, by the outcome of its own [try]
    block, hence in a terminal state; the items of the same call do not
    touch each other, their ids being distinct.  The older items are reached
    by the finalizations whose id they share, if any. *)
Lemma single_drop_final_state (pc : Z) (env : nat -> Tick)
    (files : list File) (prev : list Screenshot) :
  screenshots_after (handleFilesDropped pc env files) prev
  = rev (map (fun so => finalize (snd so) (fst so)) (accepted env 0 files))
    ++ finalize_all (accepted env 0 files) prev.
Proof. unfold handleFilesDropped. apply loop_state. Qed.

(** The two drops of [Examples.collision_trace] do interleave that way. *)
Lemma collision_trace_interleaves :
  Interleaving
    (handleFilesDropped 0 Examples.env_first [Examples.first_png])
    (handleFilesDropped 0 Examples.env_second [Examples.second_png])
    Examples.collision_trace.
Proof.
  vm_compute.
  do 5 apply interleave_left. do 5 apply interleave_right.
  do 5 apply interleave_left. do 5 apply interleave_right.
  apply interleave_nil.
Qed.

(** C3. Ids are not unique across submissions.  The id of an accepted file
    is made of the reading of the clock and of the index of the file in its
    own list, so two drops handled within the same millisecond give their
    first files the same id, here [1756300000000-0]; both items are in the
    list, each being processed. *)
Theorem id_reused_across_submissions :
  Interleaving
    (handleFilesDropped 0 Examples.env_first [Examples.first_png])
    (handleFilesDropped 0 Examples.env_second [Examples.second_png])
    Examples.collision_trace
  /\ exists a b,
       screenshots_after (firstn 10 Examples.collision_trace) [] = [b; a]
       /\ name a = "first.png"%string /\ name b = "second.png"%string
       /\ status a = processing /\ status b = processing
       /\ id a = "1756300000000-0"%string
       /\ id b = "1756300000000-0"%string.
Proof.
  split; [exact collision_trace_interleaves |].
  eexists. eexists. split; [vm_compute; reflexivity |].
  repeat split.
Qed.

(** C1. An item can be finalized twice.  Two drops are handled within the
    same millisecond, so their first files get the same id; the backend
    answers the first with a summary and the second with an error.  Each
    finalization updates every item with that id: the first item goes from
    [processing] to [completed] and then, when the second call is answered,
    from [completed] to [error]. *)
Theorem colliding_items_are_finalized_twice :
  let statuses h := map (fun s => (name s, status s)) h in
  Interleaving
    (handleFilesDropped 0 Examples.env_first [Examples.first_png])
    (handleFilesDropped 0 Examples.env_second [Examples.second_png])
    Examples.collision_trace
  /\ statuses (screenshots_after (firstn 10 Examples.collision_trace) [])
     = [("second.png"%string, processing); ("first.png"%string, processing)]
  /\ statuses (screenshots_after (firstn 15 Examples.collision_trace) [])
     = [("second.png"%string, completed); ("first.png"%string, completed)]
  /\ statuses (screenshots_after Examples.collision_trace [])
     = [("second.png"%string, error); ("first.png"%string, error)]
  /\ transitions (status_history 0 Examples.collision_trace []) = 2.
Proof.
  split; [exact collision_trace_interleaves |].
  repeat split; vm_compute; reflexivity.
Qed.

(** C4. A counterexample to the analysis text being set only on completed
    items: a file whose analysis the backend refuses ends in the error state
    with the text of the error in its [analysis] field. *)
Lemma error_text_in_analysis_field :
  ~ analysis_only_when_completed
      (screenshots_after
         (handleFilesDropped 0 Examples.env_second [Examples.second_png]) []).
Proof.
  intros H.
  specialize (H (with_results Examples.failed_response
                   (screenshot_of Examples.same_instant
                      "2025-08-27T11:42:09.000Z" 0 Examples.second_png))).
  assert (Hc : error = completed); [| discriminate Hc].
  apply H.
  - vm_compute. left. reflexivity.
  - discriminate.
Qed.

(** C4, as the shell has it.  An item has one text field, [analysis].  For an
    accepted file it is unset as long as the item is being processed; the
    finalization sets the status and the text together: [completed] with the
    summary of the response, or [error] with the error of the response or,
    when a call is rejected, with "Processing failed: " and the text of the
    rejection.  The other fields are those of the item as it was created. *)
Theorem analysis_holds_summary_or_error (pc : Z) (env : nat -> Tick)
    (file : File) (prev : list Screenshot) :
  Js.startsWith (f_type file) "image/" = true ->
  let fresh := screenshot_of (now (env 0)) (iso (env 0)) 0 file in
  status fresh = processing
  /\ analysis fresh = None
  /\ screenshots_after (firstn 2 (handleFilesDropped pc env [file])) prev
     = fresh :: prev
  /\ exists item rest,
       screenshots_after (handleFilesDropped pc env [file]) prev = item :: rest
       /\ (status item, analysis item) = finalized_as (outcome (env 0))
       /\ immutable item = immutable fresh.
Proof.
  intros Himage fresh.
  unfold handleFilesDropped, loop, iteration. rewrite Himage. simpl negb.
  cbv iota. fold fresh.
  split; [reflexivity |]. split; [reflexivity |]. split; [reflexivity |].
  rewrite app_nil_r.
  unfold try_block, finally_block.
  destruct (outcome (env 0)) as [err | base64 err | base64 result];
    [ | | destruct (success result) eqn:Hs];
    destruct (pc <=? 1)%Z; simpl;
    rewrite String.eqb_refl;
    eexists; eexists; (split; [reflexivity |]); simpl;
    rewrite ?Hs; split; reflexivity.
Qed.

Lemma analysis_holds_summary_or_error_witness :
  exists item rest,
    screenshots_after
      (handleFilesDropped 0 Examples.env_second [Examples.second_png]) []
    = item :: rest
    /\ status item = error
    /\ analysis item = Some "Claude API error: 529"%string.
Proof.
  destruct (analysis_holds_summary_or_error 0 Examples.env_second
              Examples.second_png [] eq_refl)
    as [_ [_ [_ [item [rest [Hrun [Hfin _]]]]]]].
  exists item, rest. split; [exact Hrun |].
  simpl in Hfin. injection Hfin as Hs Ha. split; assumption.
Defined.

(** The same for every accepted file of a drop, whatever its index. *)
Lemma accepted_items_finalized_as (env : nat -> Tick) (i : nat)
    (files : list File) (s : Screenshot) (o : Outcome) :
  In (s, o) (accepted env i files) ->
  status s = processing /\ analysis s = None
  /\ (status (finalize o s), analysis (finalize o s)) = finalized_as o.
Proof.
  revert i. induction files as [| file rest IH]; intros i Hin; simpl in Hin.
  - contradiction.
  - destruct (Js.startsWith (f_type file) "image/"); [| eauto].
    destruct Hin as [[= <- <-] | Hin]; [| eauto].
    split; [reflexivity |]. split; [reflexivity |].
    destruct (outcome (env i)) as [err | base64 err | base64 result];
      simpl; trivial.
    now destruct (success result).
Qed.

(** C6. A counterexample to the rejection with an error: a text file is
    dropped and the handler reports nothing about it. *)
Lemma non_image_file_reports_no_error :
  ~ (forall (pc : Z) (env : nat -> Tick) (files : list File) (file : File),
        In file files ->
        Js.startsWith (f_type file) "image/" = false ->
        reports_error (handleFilesDropped pc env files) = true).
Proof.
  intros H.
  specialize (H 0%Z Examples.env_first [Examples.notes_txt]
                Examples.notes_txt (or_introl eq_refl) eq_refl).
  vm_compute in H. discriminate H.
Qed.

(** C6, as the shell has it.  A file whose type does not start with [image/]
    is skipped in silence: its turn of the loop has no effect at all, so the
    file is not read, not handed to the backend and not added to the list,
    and no error is reported; the files after it are handled as they would
    be, with their own indices. *)
Theorem non_image_file_is_skipped (pc : Z) (env : nat -> Tick)
    (before after : list File) (file : File) :
  Js.startsWith (f_type file) "image/" = false ->
  (forall i t, iteration pc i file t = [])
  /\ handleFilesDropped pc env (before ++ file :: after)
     = handleFilesDropped pc env before
       ++ loop pc env (S (List.length before)) after
  /\ (forall prev,
        screenshots_after (handleFilesDropped pc env (before ++ [file])) prev
        = screenshots_after (handleFilesDropped pc env before) prev).
Proof.
  intros Hother.
  assert (Hskip : forall i t, iteration pc i file t = [])
    by (intros i t; unfold iteration; now rewrite Hother).
  split; [exact Hskip |]. split.
  - unfold handleFilesDropped. rewrite loop_app. simpl.
    rewrite Hskip. simpl. repeat f_equal.
  - intros prev. unfold handleFilesDropped. rewrite loop_app. simpl.
    rewrite Hskip. simpl. now rewrite app_nil_r.
Qed.

Lemma non_image_file_is_skipped_witness :
  handleFilesDropped 0 Examples.env_first
    [Examples.notes_txt; Examples.first_png]
  = ConsoleLog "Files dropped:"
    :: loop 0 Examples.env_first 1 [Examples.first_png].
Proof.
  exact (proj1 (proj2 (non_image_file_is_skipped 0 Examples.env_first []
                         [Examples.first_png] Examples.notes_txt eq_refl))).
Defined.

(** The shell checks the type of a file only: an image of any size is put in
    the list and read, whatever the backend answers afterwards. *)
Lemma image_of_any_size_is_accepted (pc : Z) (i : nat) (file : File)
    (t : Tick) :
  Js.startsWith (f_type file) "image/" = true ->
  exists rest,
    iteration pc i file t
    = SetScreenshots (AddToState (screenshot_of (now t) (iso t) i file))
      :: SetIsProcessing true :: SetProcessingCount 1
      :: FileToBase64 file :: rest.
Proof.
  intros Himage. unfold iteration. rewrite Himage. simpl.
  destruct (outcome t); simpl; eexists; reflexivity.
Qed.

End Drops.

(** ** Sequences of events *)
Section ListenerEvents.
Import App AppView.
Local Open Scope list_scope.

Lemma deliver_all_cons (p : Payload) (ps : list Payload)
    (prev : list Screenshot) :
  deliver_all (p :: ps) prev = deliver_all ps (on_screenshot_processed p prev).
Proof. reflexivity. Qed.

Lemma not_duplicate_spec (prev : list Screenshot) (s : Screenshot) :
  isDuplicate prev s = false -> ~ In (id s) (map id prev).
Proof.
  intros Hdup Hin. apply in_map_iff in Hin as [x [Hx Hin]].
  assert (H : isDuplicate prev s = true)
    by (apply isDuplicate_spec; exists x; auto).
  congruence.
Qed.

Lemma listener_step_keeps_ids_distinct (p : Payload)
    (prev : list Screenshot) :
  NoDup (map id prev) -> NoDup (map id (on_screenshot_processed p prev)).
Proof.
  intros Hnd. unfold on_screenshot_processed, add_unless_duplicate.
  destruct (isDuplicate prev (newScreenshot p)) eqn:Hdup; trivial.
  simpl. constructor; trivial.
  exact (not_duplicate_spec prev (newScreenshot p) Hdup).
Qed.

(** The listener keeps the ids of the list pairwise distinct, whatever events
    arrive and however often. *)
Theorem listener_keeps_ids_distinct (payloads : list Payload)
    (prev : list Screenshot) :
  NoDup (map id prev) -> NoDup (map id (deliver_all payloads prev)).
Proof.
  revert prev. induction payloads as [| p ps IH]; intros prev Hnd.
  - exact Hnd.
  - rewrite deliver_all_cons.
    apply IH, listener_step_keeps_ids_distinct, Hnd.
Qed.

Lemma listener_keeps_ids_distinct_witness :
  NoDup (map id (deliver_all [Examples.event_without_defaults;
                              Examples.event_without_defaults] [])).
Proof.
  apply (listener_keeps_ids_distinct
           [Examples.event_without_defaults; Examples.event_without_defaults]
           []).
  simpl. constructor.
Defined.

Lemma deliver_all_keeps_prev (payloads : list Payload)
    (prev : list Screenshot) :
  exists news, deliver_all payloads prev = news ++ prev.
Proof.
  revert prev. induction payloads as [| p ps IH]; intros prev.
  - now exists [].
  - rewrite deliver_all_cons.
    destruct (IH (on_screenshot_processed p prev)) as [news ->].
    unfold on_screenshot_processed, add_unless_duplicate.
    destruct (isDuplicate prev (newScreenshot p)).
    + now exists news.
    + exists (news ++ [newScreenshot p]). now rewrite <- app_assoc.
Qed.

(** Events only add items, in front: the items that were in the list stay,
    unchanged and in their order, behind at most one new item per event. *)
Theorem events_only_add_in_front (payloads : list Payload)
    (prev : list Screenshot) :
  exists news,
    deliver_all payloads prev = news ++ prev
    /\ List.length news <= List.length payloads.
Proof.
  revert prev. induction payloads as [| p ps IH]; intros prev.
  - exists []. split; [reflexivity | simpl; lia].
  - rewrite deliver_all_cons.
    destruct (IH (on_screenshot_processed p prev)) as [news [-> Hlen]].
    unfold on_screenshot_processed, add_unless_duplicate.
    destruct (isDuplicate prev (newScreenshot p)).
    + exists news. split; [reflexivity | simpl; lia].
    + exists (news ++ [newScreenshot p]). split.
      * now rewrite <- app_assoc.
      * rewrite length_app. simpl. lia.
Qed.

(** No event is lost: after the events, the list has an item for the id of
    every payload delivered. *)
Theorem delivered_ids_are_present (payloads : list Payload)
    (prev : list Screenshot) (p : Payload) :
  In p payloads ->
  exists s, In s (deliver_all payloads prev) /\ id s = p_id p.
Proof.
  revert prev. induction payloads as [| q ps IH]; intros prev Hin.
  - contradiction.
  - rewrite deliver_all_cons. destruct Hin as [-> | Hin]; [| now apply IH].
    destruct (deliver_all_keeps_prev ps (on_screenshot_processed p prev))
      as [news ->].
    assert (Hdup : isDuplicate (on_screenshot_processed p prev)
                     (newScreenshot p) = true)
      by apply isDuplicate_after_add.
    apply isDuplicate_spec in Hdup as [s [Hs Hid]].
    exists s. split; [apply in_or_app; now right | exact Hid].
Qed.

Lemma delivered_ids_are_present_witness :
  exists s,
    In s (deliver_all [Examples.event_without_defaults] [])
    /\ id s = "7f3c"%string.
Proof.
  exact (delivered_ids_are_present [Examples.event_without_defaults] []
           Examples.event_without_defaults (or_introl eq_refl)).
Defined.

End ListenerEvents.

(** ** One call of the handler, from start to end *)
Section DropRuns.
Import App AppView.
Local Open Scope list_scope.

Lemma accepted_length (env : nat -> Tick) (i : nat) (files : list File) :
  List.length (accepted env i files) = List.length (images files).
Proof.
  revert i. induction files as [| file rest IH]; intros i; simpl; trivial.
  destruct (Js.startsWith (f_type file) "image/"); simpl; auto.
Qed.

Lemma update_by_id_length (sid : string) (f : Screenshot -> Screenshot)
    (h : list Screenshot) :
  List.length (update_by_id sid f h) = List.length h.
Proof. unfold update_by_id. apply length_map. Qed.

Lemma finalize_all_length (items : list (Screenshot * Outcome))
    (h : list Screenshot) :
  List.length (finalize_all items h) = List.length h.
Proof.
  revert h. unfold finalize_all.
  induction items as [| so items IH]; intros h; cbn [fold_left]; trivial.
  rewrite IH. apply update_by_id_length.
Qed.

(** At the end of a call of the handler nothing it added is left in the
    [processing] state: the list has one new item for each image file of the
    drop, in front, each in the [completed] or the [error] state, and behind
    them as many items as before; nothing is removed, and a file that failed
    stays in the list. *)
Theorem drop_adds_finalized_items (pc : Z) (env : nat -> Tick)
    (files : list File) (prev : list Screenshot) :
  exists news older,
    screenshots_after (handleFilesDropped pc env files) prev = news ++ older
    /\ List.length news = List.length (images files)
    /\ List.length older = List.length prev
    /\ Forall (fun s => status s = completed \/ status s = error) news.
Proof.
  unfold handleFilesDropped. rewrite screenshots_after_cons. simpl step.
  rewrite loop_state.
  exists (rev (map (fun so => finalize (snd so) (fst so))
                   (accepted env 0 files))),
         (finalize_all (accepted env 0 files) prev).
  split; [reflexivity |].
  split; [now rewrite length_rev, length_map, accepted_length |].
  split; [apply finalize_all_length |].
  apply Forall_rev, Forall_map, Forall_forall.
  intros so _. apply finalize_terminal.
Qed.

(** A result that arrives for an id that is not in the list any more, for
    instance after the list was replaced by the one the backend keeps, is
    dropped: the update changes nothing. *)
Theorem late_result_is_dropped (sid : string) (o : Outcome)
    (existing : list Screenshot) :
  (forall s, In s existing -> id s <> sid) ->
  let update := match o with
                | Responded _ result => UpdateWithResults sid result
                | ReadRejected err | InvokeRejected _ err =>
                    UpdateFailed sid err
                end in
  apply_setter update (loadScreenshots existing) = existing.
Proof.
  intros Habsent update.
  assert (Hload : loadScreenshots existing = existing).
  { unfold loadScreenshots. rewrite <- (map_id existing) at 2.
    apply map_ext. now intros []. }
  rewrite Hload. subst update.
  destruct o; simpl; now apply update_by_id_absent.
Qed.

Lemma late_result_is_dropped_witness :
  apply_setter (UpdateWithResults "1756300000000-0" Examples.ok_response)
    (loadScreenshots [newScreenshot Examples.event_without_defaults])
  = [newScreenshot Examples.event_without_defaults].
Proof.
  apply (late_result_is_dropped "1756300000000-0"
           (Responded "Zmlyc3Q=" Examples.ok_response)
           [newScreenshot Examples.event_without_defaults]).
  intros s [<- | []]. discriminate.
Defined.

(** The ids of the items one call of the handler creates are pairwise
    distinct, whatever the clock reads during the call, even if it stands
    still or goes back. *)
Theorem ids_of_a_drop_are_distinct (env : nat -> Tick) (i : nat)
    (files : list File) :
  NoDup (map (fun so => id (fst so)) (accepted env i files)).
Proof.
  revert i. induction files as [| file rest IH]; intros i; simpl.
  - constructor.
  - destruct (Js.startsWith (f_type file) "image/"); [| apply IH].
    simpl. constructor; [| apply IH].
    intros Hin. apply in_map_iff in Hin as [so [Hid Hso]].
    destruct (accepted_ids _ _ _ _ Hso) as [t [k [Hk Hmk]]].
    rewrite Hmk in Hid. apply make_id_inj in Hid. lia.
Qed.

Lemma never_back_to_processing_witness :
  let done :=
    with_results Examples.ok_response
      (screenshot_of Examples.same_instant "2025-08-27T11:42:09.000Z" 0
         Examples.first_png) in
  exists s',
    slot (screenshots_after
            (handleFilesDropped 0 Examples.env_second [Examples.second_png])
            [done]) 0 = Some s'
    /\ status s' <> processing.
Proof.
  intros done.
  apply (never_back_to_processing
           (handleFilesDropped 0 Examples.env_second [Examples.second_png])
           [done] 0 done).
  - reflexivity.
  - discriminate.
Defined.

Lemma processingCount_after_app (t1 t2 : list Effect) (c : Z) :
  processingCount_after (t1 ++ t2) c
  = processingCount_after t2 (processingCount_after t1 c).
Proof. unfold processingCount_after. apply fold_left_app. Qed.

Lemma iteration_count (pc : Z) (i : nat) (file : File) (t : Tick) (c : Z)
    (n : nat) :
  (c <= processingCount_after (firstn n (iteration pc i file t)) c <= c + 1)%Z
  /\ processingCount_after (iteration pc i file t) c = c.
Proof.
  unfold iteration, try_block, finally_block.
  destruct (Js.startsWith (f_type file) "image/"); simpl negb; cbv iota.
  - unfold processingCount_after.
    destruct (outcome t) as [err | base64 err | base64 result];
      [ | | destruct (success result)];
      destruct (pc <=? 1)%Z;
      (split; [| cbn [fold_left app]; lia]);
      do 12 (destruct n as [| n]; [cbn [fold_left app firstn]; lia |]);
      cbn [fold_left app firstn]; lia.
  - split; [| reflexivity]. rewrite firstn_nil.
    unfold processingCount_after. cbn [fold_left]. lia.
Qed.

Lemma loop_count (pc : Z) (env : nat -> Tick) (files : list File) (i : nat)
    (c : Z) (n : nat) :
  (c <= processingCount_after (firstn n (loop pc env i files)) c <= c + 1)%Z
  /\ processingCount_after (loop pc env i files) c = c.
Proof.
  revert i n. induction files as [| file rest IH]; intros i n; simpl.
  - rewrite firstn_nil. unfold processingCount_after. cbn [fold_left]. lia.
  - destruct (iteration_count pc i file (env i) c n) as [Hpre Hall].
    rewrite firstn_app, !processingCount_after_app, Hall.
    split; [| apply (IH (S i) 0)].
    destruct (Nat.le_gt_cases (List.length (iteration pc i file (env i))) n)
      as [Hle | Hgt].
    + rewrite (@firstn_all2 _ n (iteration pc i file (env i)) Hle).
      rewrite Hall. apply IH.
    + replace (n - List.length (iteration pc i file (env i))) with 0 by lia.
      cbn [firstn]. unfold processingCount_after at 1. cbn [fold_left].
      exact Hpre.
Qed.

(** The counter of files being processed is balanced: along one call of the
    handler it is never below its value at the start nor more than one above
    it, and at the end of the call it is back at that value, whatever the
    outcomes. *)
Theorem processing_count_is_balanced (pc : Z) (env : nat -> Tick)
    (files : list File) (count : Z) (n : nat) :
  (count
   <= processingCount_after (firstn n (handleFilesDropped pc env files)) count
   <= count + 1)%Z
  /\ processingCount_after (handleFilesDropped pc env files) count = count.
Proof.
  unfold handleFilesDropped. split.
  - destruct n as [| n];
      [unfold processingCount_after; cbn [firstn fold_left]; lia |].
    cbn [firstn]. unfold processingCount_after at 1 2. cbn [fold_left].
    apply (loop_count pc env files 0 count n).
  - apply (loop_count pc env files 0 count 0).
Qed.

Lemma isProcessing_after_app (t1 t2 : list Effect) (b : bool) :
  isProcessing_after (t1 ++ t2) b
  = isProcessing_after t2 (isProcessing_after t1 b).
Proof. unfold isProcessing_after. apply fold_left_app. Qed.

Lemma iteration_indicator (pc : Z) (i : nat) (file : File) (t : Tick)
    (b : bool) :
  isProcessing_after (iteration pc i file t) b
  = if Js.startsWith (f_type file) "image/" then negb (pc <=? 1)%Z else b.
Proof.
  unfold iteration, try_block, finally_block.
  destruct (Js.startsWith (f_type file) "image/"); simpl negb; cbv iota;
    trivial.
  destruct (outcome t) as [err | base64 err | base64 result];
    [ | | destruct (success result)];
    destruct (pc <=? 1)%Z; reflexivity.
Qed.

Lemma loop_indicator (pc : Z) (env : nat -> Tick) (files : list File)
    (i : nat) (b : bool) :
  isProcessing_after (loop pc env i files) b
  = match images files with
    | [] => b
    | _ :: _ => negb (pc <=? 1)%Z
    end.
Proof.
  revert i b. induction files as [| file rest IH]; intros i b; simpl; trivial.
  rewrite isProcessing_after_app, iteration_indicator, IH.
  destruct (Js.startsWith (f_type file) "image/"); simpl; trivial.
  now destruct (images rest).
Qed.

(** The processing indicator after a call of the handler depends on the value
    of [processingCount] the callback closed over, not on the current one:
    when at least one image was dropped, the indicator ends switched off if
    that value was at most 1 and stays switched on otherwise; without any
    image it is left as it was. *)
Theorem indicator_after_drop (pc : Z) (env : nat -> Tick)
    (files : list File) (b : bool) :
  isProcessing_after (handleFilesDropped pc env files) b
  = match images files with
    | [] => b
    | _ :: _ => negb (pc <=? 1)%Z
    end.
Proof. unfold handleFilesDropped. simpl. apply loop_indicator. Qed.

Lemma invocations_app (t1 t2 : list Effect) :
  invocations (t1 ++ t2) = invocations t1 ++ invocations t2.
Proof. unfold invocations. apply flat_map_app. Qed.

Lemma reads_app (t1 t2 : list Effect) :
  reads (t1 ++ t2) = reads t1 ++ reads t2.
Proof. unfold reads. apply flat_map_app. Qed.

Lemma loop_calls (pc : Z) (env : nat -> Tick) (files : list File) (i : nat) :
  reads (loop pc env i files) = images files
  /\ invocations (loop pc env i files)
     = flat_map invocation_of (accepted env i files).
Proof.
  revert i. induction files as [| file rest IH]; intros i; simpl.
  - split; reflexivity.
  - destruct (IH (S i)) as [IHr IHi].
    rewrite reads_app, invocations_app, IHr, IHi.
    unfold iteration, try_block, finally_block.
    destruct (Js.startsWith (f_type file) "image/"); simpl negb; cbv iota.
    + destruct (outcome (env i)) as [err | base64 err | base64 result];
        [ | | destruct (success result)];
        destruct (pc <=? 1)%Z; split; reflexivity.
    + split; reflexivity.
Qed.

(** What a call of the handler asks of the outside: it reads the image files
    of the list, each once and in order, and no other file; it calls the
    backend once for each of them that could be read, in order, with the
    command [process_screenshot_direct], the source [frontend_upload] and the
    name of the file, and never for a file that is not an image or could not
    be read. *)
Theorem drop_reads_and_calls (pc : Z) (env : nat -> Tick)
    (files : list File) :
  reads (handleFilesDropped pc env files) = images files
  /\ invocations (handleFilesDropped pc env files)
     = flat_map invocation_of (accepted env 0 files).
Proof. unfold handleFilesDropped. simpl. apply loop_calls. Qed.

End DropRuns.

(** ** What the gallery shows *)
Section Gallery.
Import App AppView.
Local Open Scope list_scope.

Lemma string_length_app (a b : string) :
  String.length (a ++ b)%string = String.length a + String.length b.
Proof. induction a as [| c a IH]; simpl; auto. Qed.

Lemma substring_0_length (n : nat) (s : string) :
  n <= String.length s -> String.length (String.substring 0 n s) = n.
Proof.
  revert s. induction n as [| n IH]; intros s Hn.
  - now destruct s.
  - destruct s as [| c s]; simpl in *; [lia |]. rewrite IH; lia.
Qed.

Lemma substring_0_app (n : nat) (s t : string) :
  n <= String.length s ->
  String.substring 0 n (String.substring 0 n s ++ t)%string
  = String.substring 0 n s.
Proof.
  revert s. induction n as [| n IH]; intros s Hn.
  - destruct s; simpl; now destruct t.
  - destruct s as [| c s]; simpl in *; [lia |]. rewrite IH; trivial. lia.
Qed.

Lemma display_name_length_eq (name : string) :
  String.length (getDisplayName name)
  = (if (30 <? String.length name)%nat then 33 else String.length name).
Proof.
  unfold getDisplayName.
  destruct (Nat.ltb_spec 30 (String.length name)) as [Hlong | Hshort];
    trivial.
  rewrite string_length_app, substring_0_length by lia. reflexivity.
Qed.

(** The name on a card is never longer than 33 characters: a name of up to 30
    characters is shown as it is, a longer one as its first 30 characters and
    three dots. *)
Theorem display_name_length (name : string) :
  String.length (getDisplayName name)
  = (if (30 <? String.length name)%nat then 33 else String.length name)
  /\ String.length (getDisplayName name) <= 33
  /\ String.substring 0 30 (getDisplayName name) = String.substring 0 30 name.
Proof.
  unfold getDisplayName.
  destruct (Nat.ltb_spec 30 (String.length name)) as [Hlong | Hshort].
  - rewrite string_length_app, substring_0_length by lia. simpl.
    repeat split; try lia. apply substring_0_app. lia.
  - repeat split; lia.
Qed.

(** Shortening a name that is already shortened changes nothing. *)
Theorem display_name_idempotent (name : string) :
  getDisplayName (getDisplayName name) = getDisplayName name.
Proof.
  pose proof (display_name_length_eq name) as Hlen.
  unfold getDisplayName at 1. rewrite Hlen.
  unfold getDisplayName.
  destruct (Nat.ltb_spec 30 (String.length name)) as [Hlong | Hshort].
  - simpl Nat.ltb. cbv iota. rewrite substring_0_app by lia. reflexivity.
  - destruct (Nat.ltb_spec 30 (String.length name)); [lia | reflexivity].
Qed.

(** The two grids of the gallery show every screenshot of the list once, in
    the order of the list: the first grid the twelve most recent ones, the
    second, present only beyond twelve, the others; the empty state is
    shown exactly when there is no card and nothing is being processed. *)
Theorem gallery_shows_every_item_once (screenshots : list Screenshot)
    (isProcessing : bool) :
  cards screenshots = screenshots
  /\ match recent_grid screenshots with
     | Some l => l <> [] /\ List.length l <= 12
     | None => screenshots = []
     end
  /\ match more_grid screenshots with
     | Some l => l <> [] /\ recent_grid screenshots = Some (firstn 12 screenshots)
     | None => List.length screenshots <= 12
     end
  /\ empty_state screenshots isProcessing
     = match cards screenshots with
       | [] => negb isProcessing
       | _ :: _ => false
       end.
Proof.
  assert (Hcards : cards screenshots = screenshots).
  { unfold cards, recent_grid, more_grid.
    destruct (Nat.ltb_spec 0 (List.length screenshots)) as [Hpos | Hnil];
      destruct (Nat.ltb_spec 12 (List.length screenshots)) as [Hmore | Hfew].
    - apply firstn_skipn.
    - rewrite app_nil_r. apply firstn_all2. exact Hfew.
    - lia.
    - destruct screenshots; [reflexivity | simpl in Hnil; lia]. }
  split; [exact Hcards |]. rewrite Hcards.
  unfold recent_grid, more_grid, empty_state.
  split; [| split].
  - destruct (Nat.ltb_spec 0 (List.length screenshots)) as [Hpos | Hnil].
    + split; [| apply firstn_le_length].
      destruct screenshots; [simpl in Hpos; lia | discriminate].
    + destruct screenshots; [reflexivity | simpl in Hnil; lia].
  - destruct (Nat.ltb_spec 12 (List.length screenshots)) as [Hmore | Hfew];
      trivial.
    split.
    + intros Hnil. apply (f_equal (@List.length _)) in Hnil.
      rewrite length_skipn in Hnil. simpl in Hnil. lia.
    + destruct (Nat.ltb_spec 0 (List.length screenshots)); [reflexivity | lia].
  - destruct screenshots; reflexivity.
Qed.

Lemma split_without_separator (sep : ascii) (s : string) :
  includes sep s = false -> split sep s = [s].
Proof.
  induction s as [| c s IH]; simpl; trivial.
  intros H. apply orb_false_iff in H as [Hc Hs].
  rewrite Hc, (IH Hs). reflexivity.
Qed.

Lemma split_at_first_separator (sep : ascii) (a b : string) :
  includes sep a = false ->
  split sep (a ++ String sep b)%string = a :: split sep b.
Proof.
  induction a as [| c a IH]; simpl.
  - intros _. now rewrite Ascii.eqb_refl.
  - intros H. apply orb_false_iff in H as [Hc Ha].
    rewrite Hc, (IH Ha). reflexivity.
Qed.

(** What [fileToBase64] resolves with.  From a data URL, a header without
    comma, a comma and a payload without comma, it is the payload; a payload
    with a comma is cut at that comma; from a text without comma it is
    [undefined]. *)
Theorem onload_extracts_payload (header : string) :
  includes "," header = false ->
  fileToBase64_onload header = None
  /\ (forall base64,
        includes "," base64 = false ->
        fileToBase64_onload (header ++ "," ++ base64)%string = Some base64)
  /\ (forall base64 tail,
        includes "," base64 = false ->
        fileToBase64_onload (header ++ "," ++ base64 ++ "," ++ tail)%string
        = Some base64).
Proof.
  intros Hheader. unfold fileToBase64_onload. split; [| split].
  - now rewrite split_without_separator.
  - intros base64 Hb. simpl append.
    rewrite split_at_first_separator by exact Hheader.
    now rewrite split_without_separator.
  - intros base64 tail Hb. simpl append.
    rewrite split_at_first_separator by exact Hheader.
    now rewrite split_at_first_separator.
Qed.

Lemma onload_extracts_payload_witness :
  fileToBase64_onload "data:image/png;base64,iVBORw0KGgo=" = Some "iVBORw0KGgo="%string.
Proof.
  exact (proj1 (proj2 (onload_extracts_payload "data:image/png;base64" eq_refl))
           "iVBORw0KGgo="%string eq_refl).
Defined.

End Gallery.

(** ** The drag state of the drop zone *)
Section DropZoneFacts.
Import DropZoneState.
Local Open Scope list_scope.

Lemma handle_all_app (events later : list Event) (b : bool) :
  handle_all (events ++ later) b
  = (fst (handle_all later (fst (handle_all events b))),
     snd (handle_all events b)
     ++ snd (handle_all later (fst (handle_all events b)))).
Proof.
  revert b. induction events as [| e events IH]; intros b; simpl.
  - now destruct (handle_all later b).
  - destruct (handle e b) as [b1 passed]. rewrite IH.
    destruct (handle_all events b1) as [b2 l2]. simpl.
    destruct (handle_all later b2) as [b3 l3]. simpl.
    now destruct passed.
Qed.

(** The highlight of the drop zone follows the last drag event only: it is on
    after a drag over the zone, off after the drag left or the files were
    dropped, and a click leaves it as it was. *)
Theorem drag_state_follows_last_event (events : list Event) (e : Event)
    (b : bool) :
  fst (handle_all (events ++ [e]) b)
  = match e with
    | DragOver => true
    | DragLeave | Drop _ => false
    | Click _ => fst (handle_all events b)
    end.
Proof.
  rewrite handle_all_app. simpl.
  destruct e as [| | files | files]; simpl; trivial; now destruct files.
Qed.

End DropZoneFacts.

(** ** The actions of the server panel *)
Section ServerPanel.
Import ServerConfigPanel ServerActions.
Local Open Scope list_scope.

Lemma toggle_is_request_then_settle (toggled : unit + string) (st : State) :
  toggleDesktopDetection toggled st
  = match toggle_request st with
    | None => (st, [])
    | Some request =>
        (fst (toggle_settle request toggled st),
         Invoke (ToggleDesktopDetection (snd request))
         :: snd (toggle_settle request toggled st))
    end.
Proof.
  unfold toggleDesktopDetection, toggle_request, toggle_settle.
  destruct (serverInfo st); [| reflexivity]. now destruct toggled.
Qed.

(** Two switches of the desktop detection that both succeed bring the panel
    back to the state it was in when the second click comes after the first
    was answered: the first asks the backend for the opposite of the flag
    shown, the second for the flag itself.  When the second click comes
    before the first is answered, it reads the same server info as the
    first: both ask for the opposite of the flag, both write it, and the
    panel ends with the flag switched once, not restored. *)
Theorem toggles_restore_unless_they_overlap (st : State)
    (info : ServerInfo) :
  serverInfo st = Some info ->
  let flag := desktop_detection info in
  let first := toggleDesktopDetection (inl tt) st in
  let second := toggleDesktopDetection (inl tt) (fst first) in
  let request := (info, negb flag) in
  let overlapped :=
    fst (toggle_settle request (inl tt)
           (fst (toggle_settle request (inl tt) st))) in
  snd first = [Invoke (ToggleDesktopDetection (negb flag))]
  /\ snd second = [Invoke (ToggleDesktopDetection flag)]
  /\ fst second = st
  /\ toggle_request st = Some request
  /\ option_map desktop_detection (serverInfo overlapped) = Some (negb flag)
  /\ overlapped = fst first
  /\ overlapped <> st.
Proof.
  intros Hinfo flag first second request overlapped.
  subst flag first second request overlapped.
  destruct st as [c i l sp ss rp]. simpl in Hinfo. subst i.
  destruct info as [s ip p url dd tc].
  unfold toggleDesktopDetection, toggle_request, toggle_settle. simpl.
  rewrite negb_involutive.
  repeat split.
  intros Heq. injection Heq as Hdd. now destruct dd.
Qed.

Lemma toggles_restore_unless_they_overlap_witness :
  let st := setServerInfo (Some Examples.some_info) Examples.no_key_state in
  fst (toggleDesktopDetection (inl tt)
         (fst (toggleDesktopDetection (inl tt) st))) = st
  /\ toggle_request st
     = Some (Examples.some_info, true).
Proof.
  intros st.
  destruct (toggles_restore_unless_they_overlap st Examples.some_info
              eq_refl) as [_ [_ [Hseq [Hreq _]]]].
  split; [exact Hseq | exact Hreq].
Defined.


Lemma firstn_app_firstn (A : Type) (n : nat) (a b : list A) :
  firstn n (a ++ firstn n b) = firstn n (a ++ b).
Proof.
  rewrite !firstn_app, firstn_firstn.
  now replace (Nat.min (n - List.length a) n) with (n - List.length a) by lia.
Qed.

Lemma responses_cons (o : App.ProcessingResponse + string)
    (outcomes : list (App.ProcessingResponse + string)) :
  responses (o :: outcomes)
  = responses outcomes ++ match o with inl result => [result] | inr _ => [] end.
Proof.
  unfold responses. simpl. rewrite rev_app_distr.
  destruct o; simpl; [reflexivity | now rewrite app_nil_r].
Qed.

(** The panel keeps the five most recent results of test runs, the newest
    first: after any number of tests the list is the responses received, the
    most recent first, followed by the older entries, cut after five; a test
    whose call is rejected adds nothing. *)
Theorem recent_results_are_the_last_five
    (outcomes : list (App.ProcessingResponse + string)) (st : State) :
  List.length (recentProcessing st) <= 5 ->
  recentProcessing (run_tests outcomes st)
  = firstn 5 (responses outcomes ++ recentProcessing st)
  /\ List.length (recentProcessing (run_tests outcomes st)) <= 5.
Proof.
  intros Hlen.
  assert (Heq : recentProcessing (run_tests outcomes st)
                = firstn 5 (responses outcomes ++ recentProcessing st)).
  { revert st Hlen. induction outcomes as [| o outcomes IH]; intros st Hlen.
    - unfold run_tests, responses. cbn [fold_left flat_map rev app].
      symmetry. apply firstn_all2. exact Hlen.
    - unfold run_tests. cbn [fold_left]. fold (run_tests outcomes).
      rewrite responses_cons, <- app_assoc.
      destruct o as [result | err].
      + rewrite IH.
        * change (recentProcessing
                    (fst (testScreenshotProcessing (inl result) st)))
            with (firstn 5 (result :: recentProcessing st)).
          exact (firstn_app_firstn _ 5 (responses outcomes)
                   (result :: recentProcessing st)).
        * change (recentProcessing
                    (fst (testScreenshotProcessing (inl result) st)))
            with (firstn 5 (result :: recentProcessing st)).
          apply firstn_le_length.
      + change (fst (testScreenshotProcessing (inr err) st)) with st.
        now rewrite IH. }
  split; [exact Heq |]. rewrite Heq. apply firstn_le_length.
Qed.

Lemma recent_results_are_the_last_five_witness :
  List.length
    (recentProcessing
       (run_tests [inl Examples.ok_response; inr "timeout"%string;
                   inl Examples.failed_response] Examples.no_key_state)) <= 5.
Proof.
  apply (recent_results_are_the_last_five
           [inl Examples.ok_response; inr "timeout"%string;
            inl Examples.failed_response] Examples.no_key_state).
  simpl. lia.
Defined.

(** The start button of the setup dialog asks the backend to start the server
    exactly when it is enabled, that is when no action is loading and the API
    key is present; then it asks once, with the configuration of the panel. *)
Theorem click_start_invokes_iff_enabled (started : ServerInfo + string)
    (st : State) :
  ((exists c, In (InvokeStartServer c) (snd (click_start started st)))
   <-> start_disabled st = false)
  /\ filter (fun e => match e with InvokeStartServer _ => true | _ => false end)
            (snd (click_start started st))
     = if start_disabled st then [] else [InvokeStartServer (config st)].
Proof.
  unfold click_start, start_disabled, startServer.
  destruct (isLoading st); simpl.
  - split; [| reflexivity].
    split; [intros [c Hc]; simpl in Hc; contradiction | discriminate].
  - destruct (Js.truthy (anthropic_api_key (config st))); simpl.
    + destruct started; simpl; (split; [| reflexivity]);
        (split; [reflexivity | intros _; eexists; left; reflexivity]).
    + split; [| reflexivity].
      split; [| discriminate].
      intros [c Hc]. simpl in Hc. intuition discriminate.
Qed.

(** A server that was started with success and then stopped with success is
    shown as stopped, with the configuration it was started with and no
    action loading; in between it is shown as running when the backend
    reported the status [running]. *)
Theorem start_then_stop (info : ServerInfo) (st : State) :
  Js.truthy (anthropic_api_key (config st)) = true ->
  let running := fst (startServer (inl info) st) in
  let stopped := fst (stopServer (inl tt) running) in
  isServerRunning running = (status info =? "running")%string
  /\ showSetup running = false
  /\ isLoading running = false
  /\ isServerRunning stopped = false
  /\ serverInfo stopped = None
  /\ isLoading stopped = false
  /\ config stopped = config st.
Proof.
  intros Hkey. unfold startServer, stopServer, isServerRunning.
  rewrite Hkey. simpl. repeat split.
Qed.

Lemma start_then_stop_witness :
  let keyed :=
    ServerActions.setConfig
      {| anthropic_api_key := Some "sk-ant-test"%string;
         telegram_bot_token := None; telegram_chat_id := None;
         enable_desktop_detection := false; server_port := 5001 |}
      Examples.no_key_state in
  isServerRunning (fst (startServer (inl Examples.some_info) keyed)) = true
  /\ isServerRunning
       (fst (stopServer (inl tt)
               (fst (startServer (inl Examples.some_info) keyed)))) = false.
Proof.
  intros keyed.
  destruct (start_then_stop Examples.some_info keyed eq_refl)
    as [Hrun [_ [_ [Hstop _]]]].
  split; [exact Hrun | exact Hstop].
Defined.

(** A start or a stop that the backend rejects leaves the server info, and so
    whether the server is shown as running, as it was; the error is shown in
    an alert, and no action is left loading. *)
Theorem rejected_start_or_stop_keeps_server_info (err : string) (st : State) :
  Js.truthy (anthropic_api_key (config st)) = true ->
  let after_start := startServer (inr err) st in
  let after_stop := stopServer (inr err) st in
  serverInfo (fst after_start) = serverInfo st
  /\ isServerRunning (fst after_start) = isServerRunning st
  /\ showSetup (fst after_start) = showSetup st
  /\ isLoading (fst after_start) = false
  /\ In (ServerConfigPanel.Alert ("Failed to start server: " ++ err))
        (snd after_start)
  /\ serverInfo (fst after_stop) = serverInfo st
  /\ isServerRunning (fst after_stop) = isServerRunning st
  /\ isLoading (fst after_stop) = false
  /\ In (Alert ("Failed to stop server: " ++ err)) (snd after_stop).
Proof.
  intros Hkey. unfold startServer, stopServer, isServerRunning.
  rewrite Hkey. simpl. repeat split; auto.
Qed.

Lemma rejected_start_or_stop_keeps_server_info_witness :
  let keyed :=
    ServerActions.setConfig
      {| anthropic_api_key := Some "sk-ant-test"%string;
         telegram_bot_token := None; telegram_chat_id := None;
         enable_desktop_detection := false; server_port := 5001 |}
      Examples.no_key_state in
  serverInfo (fst (startServer (inr "port in use"%string) keyed)) = None
  /\ isLoading (fst (stopServer (inr "not running"%string) keyed)) = false.
Proof.
  intros keyed.
  destruct (rejected_start_or_stop_keeps_server_info "port in use" keyed
              eq_refl) as [Hinfo _].
  destruct (rejected_start_or_stop_keeps_server_info "not running" keyed
              eq_refl) as [_ [_ [_ [_ [_ [_ [_ [Hload _]]]]]]]].
  split; [exact Hinfo | exact Hload].
Defined.

End ServerPanel.

(** ** Validation of submitted images *)
Section IngestionFacts.
Import Pipeline.
Local Open Scope list_scope.

(** C8. An image payload whose size is exactly the configured size limit is
    accepted: it is forwarded to the pipeline, and the answer is the
    pipeline's.  A payload of one byte more is rejected with a
    ValidationError: the pipeline is not run and its state is unchanged. *)
Theorem size_limit_boundary
    (decode : list Byte.byte -> option Decoded)
    (provider : nat -> Decoded -> Source -> string -> string + FailureKind)
    (deliver : ProcessedItem -> string + FailureKind -> bool)
    (limit : N) (st : State) (s : Submission) (src : Source)
    (filename ts : string) :
  String.prefix "image/" (sub_mime s) = true ->
  (payload_size s = limit ->
   validate limit s = None
   /\ submit_image decode provider deliver limit st s src filename ts
      = (fst (submit decode provider deliver st (sub_payload s) src
                filename ts),
         inr (snd (submit decode provider deliver st (sub_payload s) src
                     filename ts))))
  /\ (payload_size s = (limit + 1)%N ->
      validate limit s = Some ValidationError
      /\ submit_image decode provider deliver limit st s src filename ts
         = (st, inl ValidationError)).
Proof.
  intros Himage. unfold submit_image, validate. rewrite Himage. simpl negb.
  cbv iota. split; intros Hsize; rewrite Hsize.
  - rewrite N.ltb_irrefl. split; [reflexivity |].
    now destruct (submit decode provider deliver st (sub_payload s) src
                    filename ts).
  - replace (limit <? limit + 1)%N with true
      by (symmetry; apply N.ltb_lt; lia).
    split; reflexivity.
Qed.

Lemma size_limit_boundary_witness :
  let at_limit :=
    {| sub_mime := "image/png";
       sub_payload := [Byte.x89; Byte.x50; Byte.x4e; Byte.x47] |} in
  let over_limit :=
    {| sub_mime := "image/png";
       sub_payload := [Byte.x89; Byte.x50; Byte.x4e; Byte.x47; Byte.x0d] |} in
  validate 4 at_limit = None
  /\ submit_image Examples.stub_decode Examples.stub_provider
       Examples.stub_deliver_fails 4 Examples.empty_pipeline over_limit
       MANUAL_UPLOAD "test.png" "2025-08-27T11:48:12.000Z"
     = (Examples.empty_pipeline, inl ValidationError).
Proof.
  intros at_limit over_limit. split.
  - exact (proj1 (proj1 (size_limit_boundary Examples.stub_decode
                           Examples.stub_provider Examples.stub_deliver_fails
                           4 Examples.empty_pipeline at_limit MANUAL_UPLOAD
                           "test.png" "2025-08-27T11:48:12.000Z" eq_refl)
                    eq_refl)).
  - exact (proj2 (proj2 (size_limit_boundary Examples.stub_decode
                           Examples.stub_provider Examples.stub_deliver_fails
                           4 Examples.empty_pipeline over_limit MANUAL_UPLOAD
                           "test.png" "2025-08-27T11:48:12.000Z" eq_refl)
                    eq_refl)).
Defined.

(** Below the limit as at the limit: an image payload is valid exactly when
    its size does not exceed the configured limit. *)
Lemma validate_image_iff (limit : N) (s : Submission) :
  String.prefix "image/" (sub_mime s) = true ->
  (validate limit s = None <-> (payload_size s <= limit)%N).
Proof.
  intros Himage. unfold validate. rewrite Himage. simpl negb. cbv iota.
  destruct (N.ltb_spec limit (payload_size s)) as [Hover | Hfits];
    split; intros Hyp; try discriminate; try reflexivity; lia.
Qed.

(** A submission whose mime type is not an image type is rejected in the same
    way, whatever its size. *)
Lemma non_image_submission_is_rejected
    (decode : list Byte.byte -> option Decoded)
    (provider : nat -> Decoded -> Source -> string -> string + FailureKind)
    (deliver : ProcessedItem -> string + FailureKind -> bool)
    (limit : N) (st : State) (s : Submission) (src : Source)
    (filename ts : string) :
  String.prefix "image/" (sub_mime s) = false ->
  submit_image decode provider deliver limit st s src filename ts
  = (st, inl ValidationError).
Proof.
  intros Hother. unfold submit_image, validate. now rewrite Hother.
Qed.

End IngestionFacts.
